(** * Go binary analysis of snyk-docker-plugin: a shallow embedding

    The development embeds the Go build-info and path-classification code
    (the [GoBinary] class with [extractModuleInformation],
    [readRawBuildInfo], [decodeString], [readData], [determinePaths] and
    [matchFilesToModules]) as Rocq functions and states the properties of
    its specification over them.

    Conventions.
    - A JavaScript [number] is an integer of [Z].  Where the source adds or
      subtracts addresses and sizes, which may be as wide as 64 bits
      ([readData]), the result is rounded to the nearest double ([fl]), and
      so are the two conversions of wider integers to [number]
      ([Number(bigint)] and the varint accumulator).  All other arithmetic
      is on lengths and offsets of buffers and on single bytes, far below
      2^53, where doubles are exact.
    - A [Buffer] is a list of bytes; [toString("binary")] maps each byte to
      the character of the same code, so a [string] is a sequence of 8-bit
      characters.
    - A thrown exception is the [Throw] case of [result]; the one unbounded
      loop of the source takes fuel and answers [None] when it runs out. *)

From Stdlib Require Import ZArith List Bool Ascii String Strings.Byte Lia.
Import ListNotations.

Local Open Scope string_scope.
Local Open Scope list_scope.
Local Open Scope Z_scope.

(** ** Exceptions *)

Inductive exn : Type :=
| Error (message : string)                      (* throw Error("...") *)
| TypeError                                     (* property access on undefined *)
| RangeError                                    (* Buffer / varint range checks *)
| GoFileNameError (fileName moduleName : string).

Inductive result (A : Type) : Type :=
| Ok (a : A)
| Throw (e : exn).
Arguments Ok {A} a.
Arguments Throw {A} e.

Definition bind {A B} (r : result A) (k : A -> result B) : result B :=
  match r with
  | Ok a => k a
  | Throw e => Throw e
  end.

Notation "x <- r ;; k" := (bind r (fun x => k))
  (at level 61, r at next level, right associativity).

(** ** JavaScript strings *)

Module JsString.

Definition concat (s t : string) : string := (s ++ t)%string.

(** [s.startsWith(p)] *)
Fixpoint startsWith (s p : string) {struct p} : bool :=
  match p with
  | EmptyString => true
  | String c p' =>
      match s with
      | EmptyString => false
      | String d s' => Ascii.eqb d c && startsWith s' p'
      end
  end.

(** [s.indexOf(needle)], as an offset from the current position. *)
Fixpoint indexOf_from (s needle : string) (pos : Z) : Z :=
  if startsWith s needle then pos
  else match s with
       | EmptyString => -1
       | String _ s' => indexOf_from s' needle (pos + 1)
       end.

Definition indexOf (s needle : string) : Z := indexOf_from s needle 0.

(** [s.includes(needle)] *)
Definition includes (s needle : string) : bool := 0 <=? indexOf s needle.

(** [s.substring(n)] for [0 <= n]. *)
Fixpoint drop (n : nat) (s : string) : string :=
  match n, s with
  | O, _ => s
  | S _, EmptyString => EmptyString
  | S n', String _ s' => drop n' s'
  end.

(** [s.slice(a, b)] for [0 <= a] and [0 <= b]. *)
Definition slice (s : string) (a b : nat) : string :=
  substring a (b - a) s.

(** The pieces of [s.split(sep)] for a non-empty [sep]: [cur] is the piece
    being read, [skip] the number of characters of a matched separator
    still to be passed over. *)
Fixpoint split_go (sep s : string) (skip : nat) (cur : string) : list string :=
  match skip with
  | S k =>
      match s with
      | EmptyString => [cur]
      | String _ s' => split_go sep s' k cur
      end
  | O =>
      match s with
      | EmptyString => [cur]
      | String c s' =>
          if startsWith s sep
          then cur :: split_go sep s' (Nat.pred (String.length sep)) EmptyString
          else split_go sep s' O (cur ++ String c EmptyString)%string
      end
  end.

(** [s.split(sep)]: with the empty separator the string falls apart into
    its characters (and the empty string into no piece at all). *)
Definition split (s sep : string) : list string :=
  match sep with
  | EmptyString => map (fun c => String c EmptyString) (list_ascii_of_string s)
  | _ => split_go sep s O EmptyString
  end.

(** A value that may be [undefined], appended to a string with [+]. *)
Definition plus_undefined (s : string) (v : option string) : string :=
  match v with
  | Some t => concat s t
  | None => concat s "undefined"
  end.

(** Truthiness of a string that may be [undefined]. *)
Definition truthy (v : option string) : bool :=
  match v with
  | Some EmptyString => false
  | Some _ => true
  | None => false
  end.

End JsString.


Definition TAB : string := String (ascii_of_nat 9) EmptyString.
Definition LF : string := String (ascii_of_nat 10) EmptyString.
Definition SLASH : ascii := ascii_of_nat 47.

(** [parts[i]] on a JavaScript array: [undefined] out of range. *)
Definition at_index {A} (l : list A) (i : nat) : option A := nth_error l i.

(** ** Node's [path] module (POSIX flavour)

    The source calls [path.join] and [path.parse(p).dir]; both belong to the
    Node runtime.  They are written here after Node's [lib/path.js]. *)

Module Path.

(** One step of [normalizeString]: [res] is the stack of segments kept so
    far (innermost last), [seg] the segment that ends at the separator just
    read.  Empty segments and [.] are dropped; [..] removes the last kept
    segment unless that is itself [..] or nothing is kept, in which case it is
    kept when the path is relative ([allowAboveRoot]). *)
Definition normalize_step (allowAboveRoot : bool) (res : list string) (seg : string)
  : list string :=
  if String.eqb seg "" || String.eqb seg "." then res
  else if String.eqb seg ".." then
    match rev res with
    | [] => if allowAboveRoot then [".."] else []
    | last :: before =>
        if String.eqb last ".."
        then (if allowAboveRoot then res ++ [".."] else res)
        else rev before
    end
  else res ++ [seg].

Definition normalizeString (path : string) (allowAboveRoot : bool) : string :=
  String.concat "/" (fold_left (normalize_step allowAboveRoot) (JsString.split path "/") []).

Definition last_char (s : string) : option ascii :=
  String.get (Nat.pred (String.length s)) s.

Definition is_slash (c : option ascii) : bool :=
  match c with
  | Some c => Ascii.eqb c SLASH
  | None => false
  end.

(** [path.normalize(p)] *)
Definition normalize (path : string) : string :=
  if String.eqb path "" then "."
  else
    let isAbsolute := is_slash (String.get 0 path) in
    let trailingSeparator := is_slash (last_char path) in
    let p := normalizeString path (negb isAbsolute) in
    if String.eqb p "" then
      (if isAbsolute then "/" else if trailingSeparator then "./" else ".")
    else
      let p := if trailingSeparator then JsString.concat p "/" else p in
      if isAbsolute then JsString.concat "/" p else p.

(** [path.join(a, b)]: the non-empty arguments joined by [/], normalized. *)
Definition join (a b : string) : string :=
  match String.eqb a "", String.eqb b "" with
  | true, true => "."
  | true, false => normalize b
  | false, true => normalize a
  | false, false => normalize (JsString.concat a (JsString.concat "/" b))
  end.

(** The backward scan of [path.parse]: [n] is one more than the index being
    read, the scan stops below [start].  It answers [startPart], the index
    after the separator that ends the directory part (0 when there is
    none); separators at the very end of the path are passed over while
    [matchedSlash] holds. *)
Fixpoint parse_scan (path : string) (start n : nat) (matchedSlash : bool) : nat :=
  match n with
  | O => O
  | S i =>
      if Nat.ltb i start then O
      else if is_slash (String.get i path) then
        (if matchedSlash then parse_scan path start i matchedSlash else S i)
      else parse_scan path start i false
  end.

(** [path.parse(p).dir] *)
Definition parse_dir (path : string) : string :=
  if String.eqb path "" then ""
  else
    let isAbsolute := is_slash (String.get 0 path) in
    let start := if isAbsolute then 1%nat else 0%nat in
    let startPart := parse_scan path start (String.length path) true in
    if Nat.ltb 0 startPart then JsString.slice path 0 (startPart - 1)
    else if isAbsolute then "/" else "".

End Path.


(** ** Numbers and bit operations *)

(** [ToInt32]: the operands and the result of [&], [~] and [<<]. *)
Definition to_int32 (z : Z) : Z := (z + 2 ^ 31) mod 2 ^ 32 - 2 ^ 31.

Definition js_and (a b : Z) : Z := to_int32 (Z.land (to_int32 a) (to_int32 b)).
Definition js_not (a : Z) : Z := to_int32 (Z.lnot (to_int32 a)).
Definition js_shl (a b : Z) : Z := to_int32 (Z.shiftl (to_int32 a) (b mod 32)).

(** The double nearest to a non-negative integer, ties to even: exact below
    2^53, above it the integer keeps its 53 leading bits. *)
Definition round_to_double (z : Z) : Z :=
  if z <? 2 ^ 53 then z
  else
    let e := Z.log2 z - 52 in
    let q := z / 2 ^ e in
    let r := z mod 2 ^ e in
    let half := 2 ^ (e - 1) in
    if r <? half then q * 2 ^ e
    else if half <? r then (q + 1) * 2 ^ e
    else (if Z.even q then q else q + 1) * 2 ^ e.

(** The double nearest to an integer of either sign: the result of an
    addition or a subtraction of two numbers whose exact result is [z]. *)
Definition fl (z : Z) : Z :=
  if z <? 0 then - round_to_double (- z) else round_to_double z.

(** [a + b] and [a - b] on numbers. *)
Definition js_add (a b : Z) : Z := fl (a + b).
Definition js_sub (a b : Z) : Z := fl (a - b).

(** ** Buffers *)

Definition Buffer : Type := list byte.

Definition byte_val (b : byte) : Z := Z.of_N (Byte.to_N b).

Module Buf.

Definition length (b : Buffer) : Z := Z.of_nat (List.length b).

(** No Buffer of Node is longer than [buffer.constants.MAX_LENGTH], which is
    at most 2^53 - 1. *)
Definition kMaxLength : Z := 2 ^ 53 - 1.

(** [buf.toString("binary")] *)
Definition toString (b : Buffer) : string := string_of_list_byte b.

(** [adjustOffset] of Node's [buffer.js]: a negative offset counts from the
    end, and the result is clamped to [0 .. length]. *)
Definition adjustOffset (offset len : Z) : Z :=
  if offset =? 0 then 0
  else if offset <? 0 then (if 0 <? offset + len then offset + len else 0)
  else if offset <? len then offset
  else len.

(** [buf.subarray(start, end)] and [buf.slice(start, end)] *)
Definition slice (b : Buffer) (start end_ : Z) : Buffer :=
  let s := adjustOffset start (length b) in
  let e := adjustOffset end_ (length b) in
  let newLength := if s <? e then e - s else 0 in
  firstn (Z.to_nat newLength) (skipn (Z.to_nat s) b).

(** [buf.subarray(start)] and [buf.slice(start)] *)
Definition subarray (b : Buffer) (start : Z) : Buffer :=
  slice b start (length b).

(** [buf[i]] for an index within the buffer; the callers below only read
    inside the 32-byte header whose presence the locator has checked. *)
Definition get (b : Buffer) (i : nat) : Z := byte_val (nth i b x00).

(** The unsigned big-endian value of a byte sequence. *)
Definition be_value (bs : list byte) : Z :=
  fold_left (fun acc b => acc * 256 + byte_val b) bs 0.

(** [buf.readUInt32BE(0)]; out of range below four bytes. *)
Definition readUInt32BE (b : Buffer) : result Z :=
  match b with
  | b0 :: b1 :: b2 :: b3 :: _ => Ok (be_value [b0; b1; b2; b3])
  | _ => Throw RangeError
  end.

(** [buf.readUInt32LE(0)] *)
Definition readUInt32LE (b : Buffer) : result Z :=
  match b with
  | b0 :: b1 :: b2 :: b3 :: _ => Ok (be_value [b3; b2; b1; b0])
  | _ => Throw RangeError
  end.

(** [Number(buf.readBigUInt64BE())]; out of range below eight bytes. *)
Definition readBigUInt64BE_Number (b : Buffer) : result Z :=
  match b with
  | b0 :: b1 :: b2 :: b3 :: b4 :: b5 :: b6 :: b7 :: _ =>
      Ok (round_to_double (be_value [b0; b1; b2; b3; b4; b5; b6; b7]))
  | _ => Throw RangeError
  end.

(** [Number(buf.readBigUInt64LE())] *)
Definition readBigUInt64LE_Number (b : Buffer) : result Z :=
  match b with
  | b0 :: b1 :: b2 :: b3 :: b4 :: b5 :: b6 :: b7 :: _ =>
      Ok (round_to_double (be_value [b7; b6; b5; b4; b3; b2; b1; b0]))
  | _ => Throw RangeError
  end.

End Buf.

(** ** The [varint] package

    [varint.decode(buf)] of the npm package (6.0.0), with its side channel
    [varint.decode.bytes] returned next to the value:
    <<
      do {
        if (counter >= l || shift > 49) { read.bytes = 0; throw new RangeError(...) }
        b = buf[counter++]
        res += shift < 28 ? (b & REST) << shift : (b & REST) * Math.pow(2, shift)
        shift += 7
      } while (b >= MSB)
      read.bytes = counter - offset
    >>
    The accumulator is a double, so the sum is rounded once it passes 2^53. *)

Module Varint.

Definition MSB : Z := 128.
Definition REST : Z := 127.

Fixpoint read (buf : Buffer) (res shift counter : Z) : result (Z * Z) :=
  match buf with
  | [] => Throw RangeError
  | byte :: buf' =>
      if 49 <? shift then Throw RangeError
      else
        let b := byte_val byte in
        let term := if shift <? 28 then js_shl (js_and b REST) shift
                    else js_and b REST * 2 ^ shift in
        let res := round_to_double (res + term) in
        if MSB <=? b then read buf' res (shift + 7) (counter + 1)
        else Ok (res, counter + 1)
  end.

(** The pair ([varint.decode(buf)], [varint.decode.bytes]). *)
Definition decode (buf : Buffer) : result (Z * Z) := read buf 0 0 0.

End Varint.

(** ** The ELF image

    Modelled from the spec: the [Elf] and [ElfProgram] types are imported
    from a module of the repository that is not among the sources; the
    fields are those the specification lists for the parsed image (sections
    with name, address and bytes; program segments with type tag, virtual
    address, file size, write flag and bytes). *)

Record ElfSection : Type := mkSection {
  section_name : string;
  section_addr : Z;
  section_data : Buffer
}.

Record ElfProgram : Type := mkElfProgram {
  program_type : string;
  program_flags_w : bool;
  vaddr : Z;
  filesz : Z;
  program_data : Buffer;
  (* the data is a Buffer of Node, so its length is within the bound *)
  program_data_fits : (Buf.length program_data <=? Buf.kMaxLength) = true
}.

(** A segment with given bytes: the bound on the length holds by
    computation. *)
Abbreviation mkProgram type w vaddr filesz data :=
  (mkElfProgram type w vaddr filesz data eq_refl).

Record Elf : Type := mkElf {
  sections : list ElfSection;
  programs : list ElfProgram
}.

(** ** Segment reader *)

(** The test [vaddr <= addr && addr <= vaddr + filesz - 1] of [readData];
    the sum and the difference are numbers, each rounded to a double. *)
Definition covers (addr : Z) (program : ElfProgram) : bool :=
  (vaddr program <=? addr)
  && (addr <=? js_sub (js_add (vaddr program) (filesz program)) 1).

Fixpoint readData (programs : list ElfProgram) (addr size : Z) : option Buffer :=
  match programs with
  | [] => None
  | program :: rest =>
      if covers addr program then
        let n := js_sub (js_add (vaddr program) (filesz program)) addr in
        let n := if size <? n then size else n in
        let from := js_sub addr (vaddr program) in
        Some (Buf.slice (program_data program) from (js_add from n))
      else readData rest addr size
  end.

(** [dataStart]: the address of the [.go.buildinfo] section, else of the
    first writable load segment, else 0. *)
Definition dataStart (binary : Elf) : Z :=
  match find (fun section => String.eqb (section_name section) ".go.buildinfo")
             (sections binary) with
  | Some section => section_addr section
  | None =>
      match find (fun program => String.eqb (program_type program) "load"
                                 && program_flags_w program)
                 (programs binary) with
      | Some program => vaddr program
      | None => 0
      end
  end.

(** ** Build-info decoder *)

Definition decodeString (data : Buffer) : result (string * Buffer) :=
  ns <- Varint.decode data ;;
  let num := fst ns in
  let size := snd ns in
  if (size <=? 0) || (Buf.length data - size <=? num) then Ok ("", [])
  else
    let res := Buf.slice data size (num + size) in
    let rest := Buf.subarray data (num + size) in
    Ok (Buf.toString res, rest).

Definition buildInfoMagic : string :=
  String (ascii_of_nat 255) " Go buildinf:".

Definition buildInfoAlign : Z := 16.
Definition buildInfoSize : Z := 32.

(** The outcome of one pass through the body of the [while (true)] loop of
    [readRawBuildInfo]. *)
Inductive scan_step : Type :=
| Found (data : Buffer)        (* [data = data.subarray(i); break] *)
| Again (data : Buffer)        (* the last line of the body, then loop *)
| Raise (e : exn).

Definition scan_body (data : Buffer) : scan_step :=
  let i := JsString.indexOf (Buf.toString data) buildInfoMagic in
  if (i <? 0) || (Buf.length data - i <? buildInfoSize)
  then Raise (Error "not a Go executable")
  else if (i mod buildInfoAlign =? 0) && (buildInfoSize <=? Buf.length data - i)
  then Found (Buf.subarray data i)
  else Again (Buf.subarray data (js_and (i + buildInfoAlign - 1) (js_not buildInfoAlign))).

(** The loop itself: [None] when [fuel] passes do not reach an exit. *)
Fixpoint scan_loop (fuel : nat) (data : Buffer) : option (result Buffer) :=
  match fuel with
  | O => None
  | S fuel' =>
      match scan_body data with
      | Found data' => Some (Ok data')
      | Raise e => Some (Throw e)
      | Again data' => scan_loop fuel' data'
      end
  end.

(** [ReadPtrFunc] *)
Definition ReadPtrFunc : Type := Buffer -> result Z.

(** The four closures of [readRawBuildInfo], chosen by [ptrSize === 4] and
    [bigEndian]. *)
Definition select_readPtr (ptrSize : Z) (bigEndian : bool) : ReadPtrFunc :=
  if ptrSize =? 4 then
    (if bigEndian then Buf.readUInt32BE else Buf.readUInt32LE)
  else
    (if bigEndian then Buf.readBigUInt64BE_Number else Buf.readBigUInt64LE_Number).

(** [const bigEndian = data[15] !== 0] *)
Definition bigEndian_of_flags (flags : Z) : bool := negb (flags =? 0).

(** The reader the decoder uses for a header with the given pointer size
    and flags byte. *)
Definition readPtr_of_header (ptrSize flags : Z) : ReadPtrFunc :=
  select_readPtr ptrSize (bigEndian_of_flags flags).

Definition readString (binaryFile : Elf) (ptrSize : Z) (readPtr : ReadPtrFunc) (addr : Z)
  : result string :=
  match readData (programs binaryFile) addr (2 * ptrSize) with
  | None => Ok ""
  | Some hdr =>
      if Buf.length hdr <? 2 * ptrSize then Ok ""
      else
        dataAddr <- readPtr hdr ;;
        dataLen <- readPtr (Buf.subarray hdr ptrSize) ;;
        match readData (programs binaryFile) dataAddr dataLen with
        | None => Ok ""
        | Some data =>
            if Buf.length data <? dataLen then Ok ""
            else Ok (Buf.toString data)
        end
  end.

(** [mod[mod.length - 17] === "\n"] for [mod.length >= 33]. *)
Definition newline_before_suffix (mod_ : string) : bool :=
  match String.get (String.length mod_ - 17) mod_ with
  | Some c => Ascii.eqb c (ascii_of_nat 10)
  | None => false
  end.

(** The part of [readRawBuildInfo] after the loop: [data] starts at the
    magic and holds at least the 32-byte header. *)
Definition decodeBuildInfo (binary : Elf) (data : Buffer) : result string :=
  let ptrSize := Buf.get data 14 in
  if negb (js_and (Buf.get data 15) 2 =? 0) then
    let data := Buf.subarray data 32 in
    r1 <- decodeString data ;;
    let data := snd r1 in
    r2 <- decodeString data ;;
    Ok (fst r2)
  else
    let readPtr := readPtr_of_header ptrSize (Buf.get data 15) in
    versionAddr <- readPtr (Buf.slice data 16 (16 + ptrSize)) ;;
    version <- readString binary ptrSize readPtr versionAddr ;;
    if String.eqb version "" then Throw (Error "no version found in go binary")
    else
      modAddr <- readPtr (Buf.slice data (16 + ptrSize) (16 + 2 * ptrSize)) ;;
      mod_ <- readString binary ptrSize readPtr modAddr ;;
      if (33 <=? String.length mod_)%nat && newline_before_suffix mod_
      then Ok (JsString.slice mod_ 16 (String.length mod_ - 16))
      else Throw (Error "binary is not built with go module support").

Definition readRawBuildInfo (fuel : nat) (binary : Elf) : option (result string) :=
  let dataAddr := dataStart binary in
  let data :=
    match readData (programs binary) dataAddr (64 * 1024) with
    | Some d => d
    | None => []
    end in
  match scan_loop fuel data with
  | None => None
  | Some (Throw e) => Some (Throw e)
  | Some (Ok data) => Some (decodeBuildInfo binary data)
  end.

(** ** Modules *)

(** Modelled from the spec: the class [GoModule] is imported from a module
    of the repository that is not among the sources.  A module is a name and
    a version with a package list that starts empty, and [fullName] is
    [name + "@" + version]. *)
Record GoModule : Type := mkGoModule {
  name : string;
  version : string;
  packages : list string
}.

Definition newGoModule (name ver : string) : GoModule := mkGoModule name ver [].

Definition fullName (m : GoModule) : string :=
  JsString.concat (name m) (JsString.concat "@" (version m)).

(** ** Module-info parser *)

(** The callback of [versionsLines.forEach]: the module of a line, if
    fields 1 and 2 are both present and non-empty. *)
Definition module_of_line (versionLine : string) : option GoModule :=
  let fields := JsString.split versionLine TAB in
  match at_index fields 1, at_index fields 2 with
  | Some name, Some ver =>
      if String.eqb name "" || String.eqb ver "" then None
      else Some (newGoModule name ver)
  | _, _ => None
  end.

Definition modules_of_lines (versionsLines : list string) : list GoModule :=
  flat_map (fun l => match module_of_line l with Some m => [m] | None => [] end)
           versionsLines.

(** The body of [extractModuleInformation] after the build info has been
    read and found non-empty.  The name is [undefined] ([None]) when the
    [mod] line has no second field. *)
Definition parseModuleInfo (mod_ : string) : result (option string * list GoModule) :=
  match JsString.split mod_ LF with
  | [] => Throw TypeError
  | [_] => Throw TypeError           (* [mainModuleLine] is undefined *)
  | pathDirective :: mainModuleLine :: versionsLines =>
      let lineSplit := JsString.split mainModuleLine TAB in
      let name := at_index lineSplit 1 in
      let name :=
        if match at_index lineSplit 0 with
           | Some f => String.eqb f "mod"
           | None => false
           end
        then name
        else Some (JsString.plus_undefined "go-distribution@"
                     (at_index (JsString.split pathDirective TAB) 1)) in
      Ok (name, modules_of_lines versionsLines)
  end.

Definition extractModuleInformation (fuel : nat) (binary : Elf)
  : option (result (option string * list GoModule)) :=
  match readRawBuildInfo fuel binary with
  | None => None
  | Some (Throw e) => Some (Throw e)
  | Some (Ok mod_) =>
      if String.eqb mod_ "" then Some (Throw (Error "binary contains empty module info"))
      else Some (parseModuleInfo mod_)
  end.

(** ** Path classifier *)

Definition isTrimmed (files : list string) : bool :=
  forallb (fun file => negb (JsString.startsWith file "/")) files.

(** [s.split(sep)[0]]; a split on a non-empty separator has a first piece. *)
Definition split_head (s sep : string) : string := hd "" (JsString.split s sep).

Fixpoint determineVendorPath (modules : list GoModule) (files : list string) : string :=
  match modules with
  | [] => ""
  | mod_ :: rest =>
      let vendoredModulePath := JsString.concat (Path.join "vendor" (name mod_)) "/" in
      let file := find (fun file => JsString.includes file vendoredModulePath) files in
      match file with
      | Some f =>
          if JsString.truthy file then
            let mainModulePath := split_head f vendoredModulePath in
            let success :=
              find (fun file => JsString.includes file mainModulePath
                                && negb (JsString.includes file vendoredModulePath))
                   files in
            if JsString.truthy success
            then JsString.concat (Path.join mainModulePath "vendor") "/"
            else determineVendorPath rest files
          else determineVendorPath rest files
      | None => determineVendorPath rest files
      end
  end.

Fixpoint determineGoModCachePath (modules : list GoModule) (files : list string) : string :=
  match modules with
  | [] => ""
  | mod_ :: rest =>
      let file :=
        find (fun file => JsString.includes file (JsString.concat "/" (fullName mod_)))
             files in
      match file with
      | Some f =>
          if JsString.truthy file then split_head f (fullName mod_)
          else determineGoModCachePath rest files
      | None => determineGoModCachePath rest files
      end
  end.

Record Paths : Type := mkPaths {
  modCachePath : string;
  vendorPath : string
}.

Definition determinePaths (modules : list GoModule) (files : list string) : Paths :=
  if isTrimmed files then mkPaths "" ""
  else mkPaths (determineGoModCachePath modules files)
               (determineVendorPath modules files).

Definition trimPrefix (s prefix : string) : string :=
  if JsString.startsWith s prefix then JsString.drop (String.length prefix) s
  else s.

(** How one file is to be matched: the key each module is compared by and
    the path that is left of the file name; [None] for a file that is
    skipped. *)
Definition classify (paths : Paths) (fileName : string)
  : option ((GoModule -> string) * string) :=
  if String.eqb fileName "<autogenerated>" then None
  else if negb (String.eqb (vendorPath paths) "")
          && JsString.startsWith fileName (vendorPath paths)
  then Some (name, trimPrefix fileName (vendorPath paths))
  else if negb (String.eqb (modCachePath paths) "")
          && JsString.startsWith fileName (modCachePath paths)
  then Some (fullName, trimPrefix fileName (modCachePath paths))
  else if String.eqb (vendorPath paths) "" && String.eqb (modCachePath paths) ""
  then Some (fullName, fileName)
  else None.

(** [module.packages.includes(pkgName)] *)
Definition packages_include (pkgs : list string) (pkgName : string) : bool :=
  existsb (String.eqb pkgName) pkgs.

(** The body of the inner loop for a module that matched: the package name
    of the file, or the error for a split that is not ["", rest]. *)
Definition packageName (module : GoModule) (modFullName pkgFile : string) : result string :=
  let parts := JsString.split pkgFile modFullName in
  match parts with
  | [part0; part1] =>
      if String.eqb part0 "" then
        let dirName := Path.parse_dir part1 in
        let dirName := if String.eqb dirName "/" then "" else dirName in
        Ok (JsString.concat (name module) dirName)
      else Throw (GoFileNameError pkgFile modFullName)
  | _ => Throw (GoFileNameError pkgFile modFullName)
  end.

Definition addPackage (module : GoModule) (pkgName : string) : GoModule :=
  if packages_include (packages module) pkgName then module
  else mkGoModule (name module) (version module) (packages module ++ [pkgName]).

(** The inner loop [for (const module of this.modules)] for one file. *)
Fixpoint matchFile (moduleName : GoModule -> string) (pkgFile : string)
  (modules : list GoModule) : result (list GoModule) :=
  match modules with
  | [] => Ok []
  | module :: rest =>
      let modFullName := moduleName module in
      if JsString.startsWith pkgFile modFullName then
        pkgName <- packageName module modFullName pkgFile ;;
        rest' <- matchFile moduleName pkgFile rest ;;
        Ok (addPackage module pkgName :: rest')
      else
        rest' <- matchFile moduleName pkgFile rest ;;
        Ok (module :: rest')
  end.

(** The outer loop [for (const fileName of files)]. *)
Fixpoint matchFiles (paths : Paths) (files : list string) (modules : list GoModule)
  : result (list GoModule) :=
  match files with
  | [] => Ok modules
  | fileName :: rest =>
      match classify paths fileName with
      | None => matchFiles paths rest modules
      | Some (moduleName, pkgFile) =>
          modules' <- matchFile moduleName pkgFile modules ;;
          matchFiles paths rest modules'
      end
  end.

(** [GoBinary.matchFilesToModules], on the module list of the binary. *)
Definition matchFilesToModules (modules : list GoModule) (files : list string)
  : result (list GoModule) :=
  matchFiles (determinePaths modules files) files modules.

(** ** The binary *)

Record GoBinary : Type := mkGoBinary {
  binary_name : option string;
  modules : list GoModule
}.

(** The constructor of [GoBinary].  [go12MapFiles] stands for
    [new LineTable(data).go12MapFiles()], the line-table decoder of the
    repository, which is not among the sources: it maps the bytes of
    [.gopclntab] to the file list, or throws. *)
Definition newGoBinary (go12MapFiles : Buffer -> result (list string))
  (fuel : nat) (goElfBinary : Elf) : option (result GoBinary) :=
  match extractModuleInformation fuel goElfBinary with
  | None => None
  | Some (Throw e) => Some (Throw e)
  | Some (Ok (name, modules)) =>
      let pclnTab :=
        find (fun section => String.eqb (section_name section) ".gopclntab")
             (sections goElfBinary) in
      match pclnTab with
      | None => Some (Throw (Error "no pcln table present in Go binary"))
      | Some pclnTab =>
          Some (files <- go12MapFiles (section_data pclnTab) ;;
                modules' <- matchFilesToModules modules files ;;
                Ok (mkGoBinary name modules'))
      end
  end.

(** ** Concrete inputs *)

Module Fixture.

(** A string of fewer than 128 characters behind its one-byte varint length. *)
Definition varintString (s : string) : Buffer :=
  match Byte.of_N (N.of_nat (String.length s)) with
  | Some len => len :: list_byte_of_string s
  | None => []
  end.

(** A build-info blob in inline-string mode: the 32-byte header (magic,
    pointer size 8, flags 2, padding), the Go version and the module info as
    varint-prefixed strings, and one byte after them. *)
Definition inlineBlob (goVersion mod_ : string) : Buffer :=
  list_byte_of_string buildInfoMagic ++ [x08; x02] ++ repeat x00 16
  ++ varintString goVersion ++ varintString mod_ ++ [x00].

(** An image whose only segment is writable, loaded at 4096 and holds
    [blob]. *)
Abbreviation elfOf sections blob :=
  (mkElf sections [mkProgram "load" true 4096 (Buf.length blob) blob]).

(** The module info of a binary of the Go distribution: the path directive
    of [cmd/vet] and no [mod] line. *)
Definition vetModuleInfo : string :=
  JsString.concat "path" (JsString.concat TAB (JsString.concat "cmd/vet" LF)).

Definition vetElf : Elf := elfOf [] (inlineBlob "go1.18.5" vetModuleInfo).

(** A module info without any newline. *)
Definition oneLineElf : Elf := elfOf [] (inlineBlob "go1.18.5" "path").

(** A data segment with the magic at offset 7 only, and 32 bytes from the
    magic to the end of the segment. *)
Definition misalignedData : Buffer :=
  repeat x00 7 ++ list_byte_of_string buildInfoMagic ++ repeat x00 18.

Definition misalignedElf : Elf := elfOf [] misalignedData.

(** An image with no section and no segment. *)
Definition emptyElf : Elf := mkElf [] [].

(** A line-table decoder that finds no file. *)
Definition noFiles : Buffer -> result (list string) := fun _ => Ok [].

End Fixture.

(** ** Reference definitions of the specification *)




(** A segment of three bytes that ends just above 2^53. *)
Definition highProgram : ElfProgram :=
  mkProgram "load" true (2 ^ 53 - 2) 3 [x01; x02; x03].

Inductive Endianness : Type := LittleEndian | BigEndian.

(** A [width]-byte unsigned integer at the start of a buffer in the given
    byte order, as a [number]. *)
Definition read_unsigned (order : Endianness) (width : nat) (b : Buffer) : result Z :=
  if (List.length b <? width)%nat then Throw RangeError
  else
    let bytes := firstn width b in
    Ok (round_to_double
          (Buf.be_value match order with
                        | BigEndian => bytes
                        | LittleEndian => rev bytes
                        end)).

(** The width of the reader chosen for a pointer size. *)
Definition reader_width (ptrSize : Z) : nat := if ptrSize =? 4 then 4%nat else 8%nat.

(** The section list has no section named [.gopclntab]. *)
Definition lacks_pclntab (binary : Elf) : Prop :=
  find (fun section => String.eqb (section_name section) ".gopclntab")
       (sections binary) = None.

Definition NoPclnTab : exn := Error "no pcln table present in Go binary".
Definition NotGoExecutable : exn := Error "not a Go executable".

(** What classification may do to a module: name and version stay, every
    package that is new begins with the name of the module, and a package
    list without repetition stays so. *)
Definition extends (m m' : GoModule) : Prop :=
  name m' = name m
  /\ version m' = version m
  /\ (forall p, In p (packages m') ->
                In p (packages m) \/ JsString.startsWith p (name m) = true)
  /\ (NoDup (packages m) -> NoDup (packages m')).

(** No module's name is a prefix of the name of a module at another place
    of the list. *)
Definition names_prefix_free (modules : list GoModule) : Prop :=
  forall i j mi mj,
    i <> j -> nth_error modules i = Some mi -> nth_error modules j = Some mj ->
    JsString.startsWith (name mj) (name mi) = false.

(** No package name is listed under two modules of the list. *)
Definition packages_disjoint (modules : list GoModule) : Prop :=
  forall i j mi mj p,
    i <> j -> nth_error modules i = Some mi -> nth_error modules j = Some mj ->
    In p (packages mi) -> ~ In p (packages mj).

(** A vendored build with a module nested in another one. *)
Definition nestedModules : list GoModule :=
  [newGoModule "example.com/a" "v1.0.0"; newGoModule "example.com/a/sub" "v0.2.0"].

Definition nestedFiles : list string :=
  ["/app/vendor/example.com/a/sub/x.go"; "/app/main.go"].

(** A trimmed build with a file whose path has an empty component. *)
Definition doubleSlashModules : list GoModule := [newGoModule "example.com/b" "v2.1.0"].

Definition doubleSlashFiles : list string := ["example.com/b@v2.1.0/x//y.go"].

(** A module-cache build of two modules whose names do not nest. *)
Definition plainModules : list GoModule :=
  [newGoModule "example.com/a" "v1.0.0"; newGoModule "example.com/b" "v2.1.0"].

Definition plainFiles : list string :=
  ["/root/pkg/mod/example.com/b@v2.1.0/x/y.go";
   "/root/pkg/mod/example.com/b@v2.1.0/x/z.go";
   "/root/pkg/mod/example.com/a@v1.0.0/a.go";
   "/usr/local/go/src/runtime/proc.go";
   "<autogenerated>"].

(** ** Names for parts of the code used in the further properties *)

(** The bytes [readRawBuildInfo] scans: up to 64 KiB from [dataStart], or
    the empty buffer when no segment covers that address. *)
Definition dataRegion (binary : Elf) : Buffer :=
  match readData (programs binary) (dataStart binary) (64 * 1024) with
  | Some d => d
  | None => []
  end.

Definition is_buildinfo_section (section : ElfSection) : bool :=
  String.eqb (section_name section) ".go.buildinfo".

Definition is_writable_load (program : ElfProgram) : bool :=
  String.eqb (program_type program) "load" && program_flags_w program.

(** A number of passes that is more than the data region can have bytes. *)
Definition scanFuel : nat := Z.to_nat (64 * 1024 + 1).

Module PointerFixture.

(** The byte of a number below 256. *)
Definition byteOf (z : Z) : byte :=
  match Byte.of_N (Z.to_N z) with
  | Some b => b
  | None => x00
  end.

(** The eight bytes of an address, least significant first. *)
Definition le64 (z : Z) : Buffer :=
  map (fun k => byteOf ((z / 256 ^ Z.of_nat k) mod 256)) (seq 0 8).

(** The module info as the linker stores it: between two 16-byte marks. *)
Definition wrapped (info : string) : Buffer :=
  repeat x30 16 ++ list_byte_of_string info ++ repeat x31 16.

(** One writable segment at [base]: the header in pointer mode (pointer
    size 8, flags 0) with the addresses of two string headers, the two
    string headers (address and length of the characters), the characters of
    the Go version and the wrapped module info. *)
Definition blob (base : Z) (goVersion info : string) : Buffer :=
  list_byte_of_string buildInfoMagic ++ [x08; x00]
  ++ le64 (base + 32) ++ le64 (base + 48)
  ++ le64 (base + 64) ++ le64 (Z.of_nat (String.length goVersion))
  ++ le64 (base + 64 + Z.of_nat (String.length goVersion))
  ++ le64 (Z.of_nat (String.length info) + 32)
  ++ list_byte_of_string goVersion ++ wrapped info.

Definition moduleInfo : string :=
  String.concat LF
    [String.concat TAB ["path"; "cmd/x"];
     String.concat TAB ["mod"; "example.com/a"; "v1.0.0"; "h1:abc="];
     String.concat TAB ["dep"; "example.com/b"; "v2.1.0"; "h1:def="];
     ""].

Definition elf : Elf := Fixture.elfOf [] (blob 4096 "go1.18.5" moduleInfo).

End PointerFixture.

Definition NoVersion : exn := Error "no version found in go binary".
Definition NoModuleSupport : exn := Error "binary is not built with go module support".
Definition EmptyModuleInfo : exn := Error "binary contains empty module info".

(** A header in pointer mode whose two addresses are 0, in a segment loaded
    at 4096: no segment covers the address of the version. *)
Definition danglingHeader : Buffer :=
  list_byte_of_string buildInfoMagic ++ [x08; x00]
  ++ PointerFixture.le64 0 ++ PointerFixture.le64 0.

Definition danglingElf : Elf := Fixture.elfOf [] danglingHeader.

(** ** The text of a module info *)

(** A field of a module-info line: no tab and no newline in it. *)
Definition clean (s : string) : Prop :=
  JsString.includes s TAB = false /\ JsString.includes s LF = false.

(** A dependency record: name, version and hash. *)
Record Dep : Type := mkDep { dep_name : string; dep_version : string; dep_hash : string }.

Definition clean_dep (d : Dep) : Prop :=
  clean (dep_name d) /\ clean (dep_version d) /\ clean (dep_hash d)
  /\ dep_name d <> "" /\ dep_version d <> "".

Definition depLine (d : Dep) : string :=
  String.concat TAB ["dep"; dep_name d; dep_version d; dep_hash d].

(** The module info of a binary with a main module: the path directive,
    the [mod] line, one [dep] line for each dependency, every line ended by
    a newline. *)
Definition moduleInfoText (path mainName mainVersion : string) (deps : list Dep) : string :=
  String.concat LF
    (String.concat TAB ["path"; path]
     :: String.concat TAB ["mod"; mainName; mainVersion]
     :: map depLine deps ++ [""]).

Definition roundTripText : string :=
  moduleInfoText "cmd/x" "example.com/a" "v1.0.0"
    [mkDep "example.com/b" "v2.1.0" "h1:def="; mkDep "example.com/c" "v0.3.0" "h1:ghi="].

Definition roundTripElf : Elf := Fixture.elfOf [] (Fixture.inlineBlob "go1.18.5" roundTripText).

(** What every module of a parsed module info satisfies. *)
Definition well_formed_module (m : GoModule) : Prop :=
  name m <> "" /\ version m <> "" /\ packages m = []
  /\ clean (name m) /\ clean (version m).

(** The directory part the classifier appends to the name of the module:
    [path.parse(rest).dir], with the directory [/] taken as empty. *)
Definition dirNameOf (rest : string) : string :=
  let dirName := Path.parse_dir rest in
  if String.eqb dirName "/" then "" else dirName.

(** A module after classification: the same name and version, and the
    packages it had, in their order, followed by the new ones. *)
Definition grows (m m' : GoModule) : Prop :=
  name m' = name m /\ version m' = version m
  /\ exists added, packages m' = packages m ++ added.

(** The file has nothing to add to the module: when the key of the module
    begins the path, the package of the path is computed and is already
    listed. *)
Definition absorbs (key : GoModule -> string) (pkgFile : string) (m : GoModule) : Prop :=
  JsString.startsWith pkgFile (key m) = true ->
  exists pkgName,
    packageName m (key m) pkgFile = Ok pkgName /\ In pkgName (packages m).

(** A key that is read off the name and the version of a module. *)
Definition stable_key (key : GoModule -> string) : Prop :=
  forall m m', name m = name m' -> version m = version m' -> key m = key m'.

Definition is_pclntab_section (section : ElfSection) : bool :=
  String.eqb (section_name section) ".gopclntab".

(** A non-trimmed build from the module cache. *)
Definition cacheFiles : list string :=
  ["/usr/local/go/src/runtime/proc.go";
   "/root/pkg/mod/example.com/b@v2.1.0/x/y.go";
   "/app/main.go"].

(** [path.join("vendor", mod.name) + "/"] *)
Definition vendoredModulePath (m : GoModule) : string :=
  JsString.concat (Path.join "vendor" (name m)) "/".

(** An image with the module info of [roundTripText] and a [.gopclntab]
    section, and a line-table decoder that answers a fixed file list. *)
Definition completeElf : Elf :=
  Fixture.elfOf [mkSection ".text" 0 []; mkSection ".gopclntab" 0 [x00]]
    (Fixture.inlineBlob "go1.18.5" roundTripText).

Definition fixedFiles : Buffer -> result (list string) :=
  fun _ => Ok ["/root/pkg/mod/example.com/b@v2.1.0/x/y.go";
               "/usr/local/go/src/runtime/proc.go";
               "<autogenerated>"].

Definition completeBinary : GoBinary :=
  mkGoBinary (Some "example.com/a")
    [mkGoModule "example.com/b" "v2.1.0" ["example.com/b/x"];
     mkGoModule "example.com/c" "v0.3.0" []].
(** * Properties *)

(** ** Sanity checks of the JavaScript primitives *)

Example split_two : JsString.split "a@v1/x/y.go" "a@v1" = [""; "/x/y.go"].
Proof. reflexivity. Qed.

Example split_lines :
  JsString.split (JsString.concat "p" (JsString.concat LF (JsString.concat "mod" LF))) LF
  = ["p"; "mod"; ""].
Proof. reflexivity. Qed.

Example split_overlap : JsString.split "aaaa" "aa" = [""; ""; ""].
Proof. reflexivity. Qed.

Example split_chars : JsString.split "abc" "" = ["a"; "b"; "c"].
Proof. reflexivity. Qed.

Example indexOf_none : JsString.indexOf "abc" "d" = -1.
Proof. reflexivity. Qed.

Example indexOf_mid : JsString.indexOf "abcbc" "bc" = 1.
Proof. reflexivity. Qed.

Example parse_dir_nested : Path.parse_dir "/a/a.go" = "/a".
Proof. reflexivity. Qed.
Example parse_dir_root : Path.parse_dir "/a.go" = "/".
Proof. reflexivity. Qed.
Example parse_dir_rel : Path.parse_dir "x/y/z.go" = "x/y".
Proof. reflexivity. Qed.
Example parse_dir_bare : Path.parse_dir "z.go" = "".
Proof. reflexivity. Qed.
Example parse_dir_trailing : Path.parse_dir "/x/" = "/".
Proof. reflexivity. Qed.
Example parse_dir_double : Path.parse_dir "/a//b.go" = "/a/".
Proof. reflexivity. Qed.
Example join_vendor : Path.join "vendor" "example.com/a" = "vendor/example.com/a".
Proof. reflexivity. Qed.
Example join_root : Path.join "/app/" "vendor" = "/app/vendor".
Proof. reflexivity. Qed.
Example join_dots : Path.join "/app/x/../" "vendor" = "/app/vendor".
Proof. reflexivity. Qed.
Example join_up : Path.join "../a/./b//c/.." "vendor" = "../a/b/vendor".
Proof. reflexivity. Qed.
Example join_empty : Path.join "" "vendor" = "vendor".
Proof. reflexivity. Qed.

(** ** Strings *)

Lemma startsWith_app (p r : string) : JsString.startsWith (p ++ r)%string p = true.
Proof.
  induction p as [|c p IH]; simpl; [reflexivity|].
  now rewrite Ascii.eqb_refl, IH.
Qed.

Lemma startsWith_inv (s p : string) :
  JsString.startsWith s p = true -> exists r, s = (p ++ r)%string.
Proof.
  revert s; induction p as [|c p IH]; intros s H; simpl in *.
  - now exists s.
  - destruct s as [|d s]; [discriminate|].
    apply andb_true_iff in H as [Hc Hp].
    apply Ascii.eqb_eq in Hc; subst d.
    destruct (IH _ Hp) as [r ->]. now exists r.
Qed.

(** Two prefixes of one string are comparable. *)
Lemma startsWith_comparable (s p q : string) :
  JsString.startsWith s p = true -> JsString.startsWith s q = true ->
  JsString.startsWith p q = true \/ JsString.startsWith q p = true.
Proof.
  revert s q; induction p as [|c p IH]; intros s q Hp Hq.
  - right. now destruct q.
  - destruct q as [|d q]; [now left|].
    destruct s as [|e s]; [discriminate|]. simpl in *.
    apply andb_true_iff in Hp as [Hc Hp], Hq as [Hd Hq].
    apply Ascii.eqb_eq in Hc, Hd; subst.
    rewrite Ascii.eqb_refl; simpl. eauto.
Qed.

Lemma indexOf_from_shift (s needle : string) (pos : Z) :
  JsString.indexOf_from s needle pos =
  if JsString.indexOf_from s needle 0 <? 0 then -1
  else pos + JsString.indexOf_from s needle 0.
Proof.
  assert (G : forall s pos, 0 <= pos ->
            JsString.indexOf_from s needle pos = -1 \/
            pos <= JsString.indexOf_from s needle pos).
  { clear. induction s as [|c s IH]; intros pos Hpos; simpl.
    - destruct (JsString.startsWith "" needle); [right; lia | now left].
    - destruct (JsString.startsWith (String c s) needle); [right; lia|].
      destruct (IH (pos + 1) ltac:(lia)); [now left | right; lia]. }
  revert pos; induction s as [|c s IH]; intros pos;
    cbn [JsString.indexOf_from].
  - destruct (JsString.startsWith "" needle); simpl; [lia | reflexivity].
  - destruct (JsString.startsWith (String c s) needle); simpl; [lia|].
    rewrite (IH (pos + 1)), (IH 1).
    destruct (G s 0 ltac:(lia)) as [E|E].
    + rewrite E. reflexivity.
    + destruct (Z.ltb_spec (JsString.indexOf_from s needle 0) 0); [lia|].
      destruct (Z.ltb_spec (1 + JsString.indexOf_from s needle 0) 0); lia.
Qed.

(** [includes] for a one-character needle, by recursion on the string. *)
Lemma includes_char_cons (c d : ascii) (s : string) :
  JsString.includes (String d s) (String c "") =
  Ascii.eqb d c || JsString.includes s (String c "").
Proof.
  unfold JsString.includes, JsString.indexOf.
  cbn [JsString.indexOf_from JsString.startsWith].
  destruct (Ascii.eqb d c); simpl; [reflexivity|].
  rewrite indexOf_from_shift.
  destruct (Z.ltb_spec (JsString.indexOf_from s (String c "") 0) 0) as [H|H].
  - symmetry. apply Z.leb_gt. lia.
  - transitivity true; [apply Z.leb_le; lia | symmetry; apply Z.leb_le; lia].
Qed.

Lemma includes_char_nil (c : ascii) : JsString.includes "" (String c "") = false.
Proof. reflexivity. Qed.

Lemma split_go_char_cons (c d : ascii) (s cur : string) :
  JsString.split_go (String c "") (String d s) O cur =
  if Ascii.eqb d c then cur :: JsString.split_go (String c "") s O ""
  else JsString.split_go (String c "") s O (cur ++ String d "")%string.
Proof.
  cbn [JsString.split_go JsString.startsWith String.length Nat.pred].
  now destruct (Ascii.eqb d c).
Qed.

Lemma split_go_char_nonempty (c : ascii) (s cur : string) :
  JsString.split_go (String c "") s O cur <> [].
Proof.
  revert cur; induction s as [|d s IH]; intros cur.
  - discriminate.
  - rewrite split_go_char_cons. destruct (Ascii.eqb d c); [discriminate | apply IH].
Qed.

(** Splitting on a character that does not occur gives the string back as
    the only piece. *)
Lemma split_go_absent (c : ascii) (s cur : string) :
  JsString.includes s (String c "") = false ->
  JsString.split_go (String c "") s O cur = [(cur ++ s)%string].
Proof.
  revert cur; induction s as [|d s IH]; intros cur H.
  - simpl. f_equal. induction cur; simpl; congruence.
  - rewrite includes_char_cons in H. apply orb_false_iff in H as [Hd Hs].
    rewrite split_go_char_cons, Hd.
    rewrite IH by assumption. f_equal.
    clear. induction cur; simpl; congruence.
Qed.

(** Splitting on a character that occurs gives at least two pieces. *)
Lemma split_go_present (c : ascii) (s cur : string) :
  JsString.includes s (String c "") = true ->
  exists p0 p1 ps, JsString.split_go (String c "") s O cur = p0 :: p1 :: ps.
Proof.
  revert cur; induction s as [|d s IH]; intros cur H.
  - discriminate.
  - rewrite includes_char_cons in H. rewrite split_go_char_cons.
    destruct (Ascii.eqb d c) eqn:Hd.
    + destruct (JsString.split_go (String c "") s O "") as [|p ps] eqn:E.
      * now apply split_go_char_nonempty in E.
      * now exists cur, p, ps.
    + simpl in H. now apply IH.
Qed.

(** ** Fixtures *)

Example vetElf_buildInfo :
  readRawBuildInfo 1 Fixture.vetElf = Some (Ok Fixture.vetModuleInfo).
Proof. vm_compute. reflexivity. Qed.

Example oneLineElf_buildInfo :
  readRawBuildInfo 1 Fixture.oneLineElf = Some (Ok "path").
Proof. vm_compute. reflexivity. Qed.

(** ** Module-info parser *)

Lemma split_LF_absent (s : string) :
  JsString.includes s LF = false -> JsString.split s LF = [s].
Proof. intros H. unfold JsString.split, LF. now rewrite split_go_absent. Qed.

Lemma split_LF_present (s : string) :
  JsString.includes s LF = true ->
  exists pathDirective mainModuleLine versionsLines,
    JsString.split s LF = pathDirective :: mainModuleLine :: versionsLines.
Proof. intros H. unfold JsString.split, LF. now apply split_go_present. Qed.

(** The parser answers as soon as the blob has a second line. *)
Lemma parseModuleInfo_two_lines (mod_ pathDirective mainModuleLine : string)
  (versionsLines : list string) :
  JsString.split mod_ LF = pathDirective :: mainModuleLine :: versionsLines ->
  exists name, parseModuleInfo mod_ = Ok (name, modules_of_lines versionsLines).
Proof. intros E. unfold parseModuleInfo. rewrite E. eauto. Qed.

(** C8. When the first tab-separated field of the second line of the module
    info is not [mod], [extractModuleInformation] names the binary
    ["go-distribution@"] followed by the second tab-separated field of the
    first line, the path directive. *)
Theorem extractModuleInformation_go_distribution
  (fuel : nat) (binary : Elf) (mod_ pathDirective mainModuleLine field : string)
  (versionsLines : list string) :
  readRawBuildInfo fuel binary = Some (Ok mod_) ->
  JsString.split mod_ LF = pathDirective :: mainModuleLine :: versionsLines ->
  at_index (JsString.split mainModuleLine TAB) 0 <> Some "mod" ->
  at_index (JsString.split pathDirective TAB) 1 = Some field ->
  extractModuleInformation fuel binary =
    Some (Ok (Some (JsString.concat "go-distribution@" field),
              modules_of_lines versionsLines)).
Proof.
  intros Hraw Hsplit Hmod Hfield.
  unfold extractModuleInformation. rewrite Hraw.
  destruct (String.eqb_spec mod_ "") as [->|_]; [discriminate|].
  unfold parseModuleInfo. rewrite Hsplit, Hfield.
  destruct (at_index (JsString.split mainModuleLine TAB) 0) as [f|]; [|reflexivity].
  destruct (String.eqb_spec f "mod") as [->|_]; [congruence | reflexivity].
Qed.

(** The path directive of [cmd/vet] without a [mod] line gives the name
    [go-distribution@cmd/vet]. *)
Lemma extractModuleInformation_go_distribution_vet :
  extractModuleInformation 1 Fixture.vetElf =
    Some (Ok (Some "go-distribution@cmd/vet", [])).
Proof.
  apply (extractModuleInformation_go_distribution 1 Fixture.vetElf
           Fixture.vetModuleInfo (JsString.concat "path" (JsString.concat TAB "cmd/vet"))
           "" "cmd/vet" []).
  - vm_compute. reflexivity.
  - vm_compute. reflexivity.
  - vm_compute. discriminate.
  - vm_compute. reflexivity.
Defined.

(** Without a second field on the first line the name ends in the text of
    [undefined]. *)
Example parseModuleInfo_no_path_field :
  parseModuleInfo (JsString.concat "path" LF) = Ok (Some "go-distribution@undefined", []).
Proof. reflexivity. Qed.

(** C9. A module info that is not empty and has no newline makes
    [extractModuleInformation] fail with a type error, the read of a field of
    the missing second line, which is none of the errors the code throws
    itself; a module info with a newline is parsed to a result, so with that
    precondition the failure cannot happen. *)
Theorem extractModuleInformation_needs_newline
  (fuel : nat) (binary : Elf) (mod_ : string) :
  readRawBuildInfo fuel binary = Some (Ok mod_) ->
  mod_ <> "" ->
  (JsString.includes mod_ LF = false ->
   extractModuleInformation fuel binary = Some (Throw TypeError))
  /\
  (JsString.includes mod_ LF = true ->
   exists name modules,
     extractModuleInformation fuel binary = Some (Ok (name, modules))).
Proof.
  intros Hraw Hne. unfold extractModuleInformation. rewrite Hraw.
  destruct (String.eqb_spec mod_ "") as [->|_]; [congruence|].
  split; intros H.
  - unfold parseModuleInfo. now rewrite (split_LF_absent _ H).
  - destruct (split_LF_present _ H) as (p & m & vs & E).
    destruct (parseModuleInfo_two_lines _ _ _ _ E) as [name ->]. eauto.
Qed.

Lemma extractModuleInformation_needs_newline_witness :
  extractModuleInformation 1 Fixture.oneLineElf = Some (Throw TypeError)
  /\ exists name modules,
       extractModuleInformation 1 Fixture.vetElf = Some (Ok (name, modules)).
Proof.
  split.
  - apply (extractModuleInformation_needs_newline 1 Fixture.oneLineElf "path").
    + vm_compute. reflexivity.
    + discriminate.
    + vm_compute. reflexivity.
  - apply (extractModuleInformation_needs_newline 1 Fixture.vetElf Fixture.vetModuleInfo).
    + vm_compute. reflexivity.
    + discriminate.
    + vm_compute. reflexivity.
Defined.

(** ** Numbers as doubles *)

(** The exponent and the 53-bit quotient of an integer from 2^53 on. *)
Lemma double_quotient (z : Z) :
  2 ^ 53 <= z ->
  let e := Z.log2 z - 52 in
  1 <= e /\ 0 < 2 ^ e /\ 2 ^ 52 <= z / 2 ^ e < 2 ^ 53
  /\ z = z / 2 ^ e * 2 ^ e + z mod 2 ^ e /\ 0 <= z mod 2 ^ e < 2 ^ e
  /\ 2 * 2 ^ (e - 1) = 2 ^ e.
Proof.
  intros H e.
  assert (L : 53 <= Z.log2 z) by (apply Z.log2_le_pow2; lia).
  assert (E : 1 <= e) by (subst e; lia).
  assert (P : 0 < 2 ^ e) by (apply Z.pow_pos_nonneg; lia).
  destruct (Z.log2_spec z ltac:(lia)) as [Lo Hi].
  replace (Z.log2 z) with (52 + e) in Lo by (subst e; lia).
  replace (Z.succ (Z.log2 z)) with (53 + e) in Hi by (subst e; lia).
  rewrite Z.pow_add_r in Lo, Hi by lia.
  repeat split; try lia.
  - apply Z.div_le_lower_bound; lia.
  - apply Z.div_lt_upper_bound; lia.
  - rewrite Z.mul_comm. apply Z.div_mod. lia.
  - apply Z.mod_pos_bound. lia.
  - apply Z.mod_pos_bound. lia.
  - replace e with (1 + (e - 1)) at 2 by lia. rewrite Z.pow_add_r by lia. reflexivity.
Qed.

Lemma round_to_double_bounds (z : Z) :
  2 ^ 53 <= z ->
  let e := Z.log2 z - 52 in
  z / 2 ^ e * 2 ^ e <= round_to_double z <= (z / 2 ^ e + 1) * 2 ^ e.
Proof.
  intros H e. destruct (double_quotient z H) as (E & P & Q & D & R & Hh). fold e in P, Q, D, R, Hh.
  unfold round_to_double. destruct (Z.ltb_spec z (2 ^ 53)); [lia|]. fold e.
  cbv zeta.
  destruct (_ <? _); [nia|]. destruct (_ <? _); [nia|]. destruct (Z.even _); nia.
Qed.

Lemma round_to_double_mono (x y : Z) :
  x <= y -> round_to_double x <= round_to_double y.
Proof.
  intros H.
  destruct (Z.lt_ge_cases y (2 ^ 53)) as [Y|Y].
  { unfold round_to_double.
    destruct (Z.ltb_spec x (2 ^ 53)), (Z.ltb_spec y (2 ^ 53)); lia. }
  pose proof (round_to_double_bounds y Y) as By.
  destruct (double_quotient y Y) as (Ey & Py & Qy & Dy & Ry & Hy).
  destruct (Z.lt_ge_cases x (2 ^ 53)) as [X|X].
  { unfold round_to_double at 1. destruct (Z.ltb_spec x (2 ^ 53)); [|lia].
    cbv zeta in By.
    assert (V : 2 ^ 52 * 2 ^ (Z.log2 y - 52)
                <= y / 2 ^ (Z.log2 y - 52) * 2 ^ (Z.log2 y - 52))
      by (apply Z.mul_le_mono_nonneg_r; lia).
    assert (T : 2 ^ 1 <= 2 ^ (Z.log2 y - 52)) by (apply Z.pow_le_mono_r; lia).
    change (2 ^ 1) with 2 in T.
    assert (W : 2 ^ 52 * 2 <= 2 ^ 52 * 2 ^ (Z.log2 y - 52))
      by (apply Z.mul_le_mono_nonneg_l; lia).
    change (2 ^ 52 * 2) with (2 ^ 53) in W. lia. }
  pose proof (round_to_double_bounds x X) as Bx.
  destruct (double_quotient x X) as (Ex & Px & Qx & Dx & Rx & Hx).
  cbv zeta in *.
  assert (Le : Z.log2 x <= Z.log2 y) by (apply Z.log2_le_mono; lia).
  set (ex := Z.log2 x - 52) in *. set (ey := Z.log2 y - 52) in *.
  destruct (Z.eq_dec ex ey) as [Eq|Ne].
  - assert (Ly : Z.log2 y - 52 = ex) by (symmetry; exact Eq).
    rewrite <- Eq in *. clear Eq.
    assert (Qle : x / 2 ^ ex <= y / 2 ^ ex) by (apply Z.div_le_mono; lia).
    destruct (Z.eq_dec (x / 2 ^ ex) (y / 2 ^ ex)) as [Qe|Qn].
    + assert (Rle : x mod 2 ^ ex <= y mod 2 ^ ex).
      { clear - Dx Dy Qe H. revert Dx Dy Qe.
        generalize (x mod 2 ^ ex), (y mod 2 ^ ex).
        generalize (x / 2 ^ ex), (y / 2 ^ ex). generalize (2 ^ ex).
        intros P qx qy rx ry Dx Dy ->. lia. }
      unfold round_to_double.
      destruct (Z.ltb_spec x (2 ^ 53)) as [Xs|_]; [exfalso; clear - X Xs; lia|].
      destruct (Z.ltb_spec y (2 ^ 53)) as [Ys|_]; [exfalso; clear - Y Ys; lia|].
      rewrite Ly. fold ex. cbv zeta. rewrite <- Qe.
      clear - Rle Px Hx.
      revert Rle Hx Px.
      generalize (x mod 2 ^ ex), (y mod 2 ^ ex), (x / 2 ^ ex), (2 ^ (ex - 1)).
      generalize (2 ^ ex). intros P rx ry q h Rle Hx Px.
      destruct (Z.ltb_spec rx h); destruct (Z.ltb_spec ry h);
        destruct (Z.ltb_spec h rx); destruct (Z.ltb_spec h ry);
        destruct (Z.even q); try lia; nia.
    + assert ((x / 2 ^ ex + 1) * 2 ^ ex <= y / 2 ^ ex * 2 ^ ex)
        by (apply Z.mul_le_mono_nonneg_r; lia).
      lia.
  - assert (Lt : ex + 1 <= ey) by (subst ex ey; lia).
    assert (Pw : 2 ^ (ex + 1) <= 2 ^ ey) by (apply Z.pow_le_mono_r; lia).
    rewrite Z.pow_add_r in Pw by lia. change (2 ^ 1) with 2 in Pw.
    assert (U : (x / 2 ^ ex + 1) * 2 ^ ex <= 2 ^ 53 * 2 ^ ex)
      by (apply Z.mul_le_mono_nonneg_r; lia).
    assert (V : 2 ^ 52 * 2 ^ ey <= y / 2 ^ ey * 2 ^ ey)
      by (apply Z.mul_le_mono_nonneg_r; lia).
    assert (W : 2 ^ 53 * 2 ^ ex <= 2 ^ 52 * 2 ^ ey).
    { change (2 ^ 53) with (2 ^ 52 * 2). rewrite <- Z.mul_assoc.
      apply Z.mul_le_mono_nonneg_l; lia. }
    lia.
Qed.

Lemma round_to_double_exact (m e : Z) :
  2 ^ 52 <= m <= 2 ^ 53 -> 1 <= e -> round_to_double (m * 2 ^ e) = m * 2 ^ e.
Proof.
  intros M E.
  assert (P : 0 < 2 ^ e) by (apply Z.pow_pos_nonneg; lia).
  assert (P1 : 0 < 2 ^ (e - 1)) by (apply Z.pow_pos_nonneg; lia).
  assert (2 <= 2 ^ e) by (change 2 with (2 ^ 1) at 1; apply Z.pow_le_mono_r; lia).
  unfold round_to_double.
  destruct (Z.ltb_spec (m * 2 ^ e) (2 ^ 53)); [change (2 ^ 53) with (2 ^ 52 * 2) in *; nia|].
  rewrite Z.log2_mul_pow2 by lia.
  destruct (Z.eq_dec m (2 ^ 53)) as [->|Mn].
  - change (Z.log2 (2 ^ 53)) with 53.
    replace (e + 53 - 52) with (e + 1) by lia. cbv zeta.
    replace (2 ^ 53 * 2 ^ e) with (2 ^ 52 * 2 ^ (e + 1))
      by (rewrite (Z.pow_add_r 2 e 1) by lia; change (2 ^ 53) with (2 ^ 52 * 2); change (2 ^ 1) with 2; lia).
    assert (0 < 2 ^ (e + 1)) by (apply Z.pow_pos_nonneg; lia).
    rewrite Z.div_mul, Z.mod_mul by lia.
    replace (e + 1 - 1) with e by lia.
    destruct (Z.ltb_spec 0 (2 ^ e)); [reflexivity | lia].
  - assert (Lm : Z.log2 m = 52) by (apply Z.log2_unique; [lia|]; change (2 ^ (52 + 1)) with (2 ^ 53); lia).
    rewrite Lm. replace (e + 52 - 52) with e by lia. cbv zeta.
    rewrite Z.div_mul, Z.mod_mul by lia.
    destruct (Z.ltb_spec 0 (2 ^ (e - 1))); [reflexivity | lia].
Qed.

Lemma round_to_double_idem (z : Z) :
  round_to_double (round_to_double z) = round_to_double z.
Proof.
  destruct (Z.lt_ge_cases z (2 ^ 53)) as [S|B].
  - unfold round_to_double. destruct (Z.ltb_spec z (2 ^ 53)); [|lia].
    destruct (Z.ltb_spec z (2 ^ 53)); [reflexivity | lia].
  - destruct (double_quotient z B) as (E & P & Q & D & R & Hh).
    cbv zeta in *. set (e := Z.log2 z - 52) in *.
    assert (C : round_to_double z = z / 2 ^ e * 2 ^ e
                \/ round_to_double z = (z / 2 ^ e + 1) * 2 ^ e).
    { unfold round_to_double. destruct (Z.ltb_spec z (2 ^ 53)); [lia|]. fold e. cbv zeta.
      destruct (_ <? _); [now left|]. destruct (_ <? _); [now right|].
      destruct (Z.even _); [now left | now right]. }
    destruct C as [-> | ->]; apply round_to_double_exact; lia.
Qed.

Lemma fl_small (z : Z) : - 2 ^ 53 < z < 2 ^ 53 -> fl z = z.
Proof.
  intros H. unfold fl, round_to_double.
  destruct (Z.ltb_spec z 0).
  - destruct (Z.ltb_spec (- z) (2 ^ 53)); lia.
  - destruct (Z.ltb_spec z (2 ^ 53)); lia.
Qed.

Lemma round_to_double_nonneg_mono (z : Z) : 0 <= z -> 0 <= round_to_double z.
Proof.
  intros H. pose proof (round_to_double_mono 0 z H) as M.
  now change (round_to_double 0) with 0 in M.
Qed.

Lemma fl_mono (x y : Z) : x <= y -> fl x <= fl y.
Proof.
  intros H. unfold fl.
  destruct (Z.ltb_spec x 0), (Z.ltb_spec y 0).
  - pose proof (round_to_double_mono (- y) (- x) ltac:(lia)). lia.
  - pose proof (round_to_double_nonneg_mono (- x) ltac:(lia)).
    pose proof (round_to_double_nonneg_mono y ltac:(lia)). lia.
  - lia.
  - now apply round_to_double_mono.
Qed.

Lemma fl_idem (z : Z) : fl (fl z) = fl z.
Proof.
  unfold fl. destruct (Z.ltb_spec z 0).
  - pose proof (round_to_double_mono 1 (- z) ltac:(lia)) as M.
    change (round_to_double 1) with 1 in M.
    destruct (Z.ltb_spec (- round_to_double (- z)) 0); [|lia].
    now rewrite Z.opp_involutive, round_to_double_idem.
  - pose proof (round_to_double_nonneg_mono z ltac:(lia)).
    destruct (Z.ltb_spec (round_to_double z) 0); [lia|].
    apply round_to_double_idem.
Qed.

Lemma fl_nonneg (z : Z) : 0 <= z -> 0 <= fl z.
Proof. intros H. pose proof (fl_mono 0 z H). now change (fl 0) with 0 in *. Qed.

Lemma fl_large (z : Z) : 2 ^ 53 <= z -> 2 ^ 53 <= fl z.
Proof.
  intros H. pose proof (fl_mono (2 ^ 53) z H) as M.
  replace (fl (2 ^ 53)) with (2 ^ 53) in M; [exact M|].
  symmetry. unfold fl. change (2 ^ 53 <? 0) with false. cbv iota.
  change (2 ^ 53) with (2 ^ 52 * 2 ^ 1). apply round_to_double_exact; [|lia].
  change (2^53)  with 9007199254740992.  change (2^52) with 4503599627370496. lia.
Qed.

Example fl_tie_down : fl (2 ^ 53 + 1) = 2 ^ 53.
Proof. reflexivity. Qed.

Example fl_tie_up : fl (2 ^ 53 + 3) = 2 ^ 53 + 4.
Proof. reflexivity. Qed.

(** ** Segment reader *)




(** A slice inside the buffer is the bytes from [from] up to [to]. *)
Lemma slice_in_range (b : Buffer) (from to : Z) :
  0 <= from <= to -> to <= Buf.length b ->
  Buf.slice b from to = firstn (Z.to_nat (to - from)) (skipn (Z.to_nat from) b)
  /\ Buf.length (Buf.slice b from to) = to - from.
Proof.
  intros H1 H2. unfold Buf.slice, Buf.adjustOffset.
  assert (E : Buf.slice b from to =
              firstn (Z.to_nat (to - from)) (skipn (Z.to_nat from) b)).
  { unfold Buf.slice, Buf.adjustOffset.
    destruct (Z.eqb_spec from 0) as [->|Hf].
    - destruct (Z.eqb_spec to 0) as [->|Ht]; [reflexivity|].
      destruct (Z.ltb_spec to 0); [lia|].
      destruct (Z.ltb_spec to (Buf.length b)).
      + destruct (Z.ltb_spec 0 to); [reflexivity | lia].
      + replace to with (Buf.length b) by lia.
        destruct (Z.ltb_spec 0 (Buf.length b)); [reflexivity | lia].
    - destruct (Z.ltb_spec from 0); [lia|].
      destruct (Z.eqb_spec to 0); [lia|].
      destruct (Z.ltb_spec to 0); [lia|].
      destruct (Z.ltb_spec from (Buf.length b)), (Z.ltb_spec to (Buf.length b));
        try lia.
      + destruct (Z.ltb_spec from to); [reflexivity|].
        replace (to - from) with 0 by lia. reflexivity.
      + replace to with (Buf.length b) by lia.
        destruct (Z.ltb_spec from (Buf.length b)); [reflexivity | lia].
      + replace to with (Buf.length b) by lia.
        replace from with (Buf.length b) by lia.
        rewrite Z.ltb_irrefl, Z.sub_diag. reflexivity. }
  split; [exact E|].
  fold (Buf.adjustOffset from (Buf.length b)).
  fold (Buf.adjustOffset to (Buf.length b)).
  fold (Buf.slice b from to). rewrite E.
  unfold Buf.length in *. rewrite length_firstn, length_skipn. lia.
Qed.




Example readData_high_one_byte : readData [highProgram] (2 ^ 53 - 1) 2 = Some [x02].
Proof. vm_compute. reflexivity. Qed.

Example readData_high_past_end :
  readData [mkProgram "load" true (2 ^ 53) 3 [x01; x02; x03]] (2 ^ 53 + 4) 2 = Some [].
Proof. vm_compute. reflexivity. Qed.


(** ** Varint-prefixed strings *)

Lemma to_int32_small (z : Z) : - 2 ^ 31 <= z < 2 ^ 31 -> to_int32 z = z.
Proof. intros H. unfold to_int32. rewrite Z.mod_small; lia. Qed.

Lemma byte_val_range (b : byte) : 0 <= byte_val b < 256.
Proof.
  unfold byte_val. pose proof (Byte.to_N_bounded b) as H. lia.
Qed.

Lemma js_and_rest (b : Z) : 0 <= b < 256 -> js_and b Varint.REST = b mod 128.
Proof.
  intros H. unfold js_and, Varint.REST.
  rewrite (to_int32_small b), (to_int32_small 127) by lia.
  change 127 with (Z.ones 7). rewrite Z.land_ones by lia.
  apply to_int32_small. change (2 ^ 7) with 128.
  pose proof (Z.mod_pos_bound b 128). lia.
Qed.

(** The term a varint byte adds to the accumulator is not negative. *)
Lemma varint_term_nonneg (b : Z) (k : nat) :
  0 <= b < 256 ->
  let shift := 7 * Z.of_nat k in
  0 <= (if shift <? 28 then js_shl (js_and b Varint.REST) shift
        else js_and b Varint.REST * 2 ^ shift).
Proof.
  intros H shift. rewrite js_and_rest by assumption.
  pose proof (Z.mod_pos_bound b 128 ltac:(lia)) as M.
  destruct (Z.ltb_spec shift 28) as [L|L].
  - assert (K : (k = 0 \/ k = 1 \/ k = 2 \/ k = 3)%nat) by lia.
    unfold js_shl. rewrite (to_int32_small (b mod 128)) by lia.
    destruct K as [-> | [-> | [-> | ->]]]; subst shift.
    + change (7 * Z.of_nat 0) with 0. change (0 mod 32) with 0.
      rewrite Z.shiftl_mul_pow2 by lia. rewrite to_int32_small; lia.
    + change (7 * Z.of_nat 1) with 7. change (7 mod 32) with 7.
      rewrite Z.shiftl_mul_pow2 by lia. rewrite to_int32_small; lia.
    + change (7 * Z.of_nat 2) with 14. change (14 mod 32) with 14.
      rewrite Z.shiftl_mul_pow2 by lia. rewrite to_int32_small; lia.
    + change (7 * Z.of_nat 3) with 21. change (21 mod 32) with 21.
      rewrite Z.shiftl_mul_pow2 by lia. rewrite to_int32_small; lia.
  - assert (0 < 2 ^ shift) by (apply Z.pow_pos_nonneg; lia). nia.
Qed.

Lemma round_to_double_nonneg (z : Z) : 0 <= z -> 0 <= round_to_double z.
Proof.
  intros H. unfold round_to_double.
  destruct (Z.ltb_spec z (2 ^ 53)); [assumption|].
  set (e := Z.log2 z - 52).
  assert (0 <= z / 2 ^ e) by (apply Z.div_pos; [lia | apply Z.pow_pos_nonneg; [lia|]];
    subst e; assert (53 <= Z.log2 z) by (apply Z.log2_le_pow2; lia); lia).
  assert (0 < 2 ^ e) by (apply Z.pow_pos_nonneg; [lia|];
    subst e; assert (53 <= Z.log2 z) by (apply Z.log2_le_pow2; lia); lia).
  destruct (_ <? _); [nia|]. destruct (_ <? _); [nia|]. destruct (Z.even _); nia.
Qed.

(** A successful [varint.decode] gives a value that is not negative and
    has read at least one byte and at most the buffer. *)
Lemma varint_read_bounds (buf : Buffer) :
  forall (k : nat) (res counter num size : Z),
    0 <= res ->
    Varint.read buf res (7 * Z.of_nat k) counter = Ok (num, size) ->
    0 <= num /\ counter < size <= counter + Buf.length buf.
Proof.
  induction buf as [|byte buf IH]; intros k res counter num size Hres H;
    cbn [Varint.read] in H; [discriminate|].
  destruct (Z.ltb_spec 49 (7 * Z.of_nat k)); [discriminate|].
  pose proof (varint_term_nonneg (byte_val byte) k (byte_val_range byte)) as T.
  cbv zeta in T.
  set (term := if 7 * Z.of_nat k <? 28 then _ else _) in *.
  assert (R : 0 <= round_to_double (res + term)) by (apply round_to_double_nonneg; lia).
  unfold Buf.length in *. cbn [List.length]. rewrite Nat2Z.inj_succ.
  destruct (Z.leb_spec Varint.MSB (byte_val byte)).
  - replace (7 * Z.of_nat k + 7) with (7 * Z.of_nat (S k)) in H by lia.
    apply IH in H; [lia | assumption].
  - injection H as <- <-. lia.
Qed.

Lemma varint_decode_bounds (buf : Buffer) (num size : Z) :
  Varint.decode buf = Ok (num, size) ->
  0 <= num /\ 0 < size <= Buf.length buf.
Proof.
  intros H. unfold Varint.decode in H.
  apply (varint_read_bounds buf 0 0 0 num size) in H; lia.
Qed.

Lemma subarray_in_range (b : Buffer) (from : Z) :
  0 <= from <= Buf.length b ->
  Buf.subarray b from = skipn (Z.to_nat from) b.
Proof.
  intros H. unfold Buf.subarray.
  destruct (slice_in_range b from (Buf.length b)) as [E _]; [lia | lia |].
  rewrite E. apply firstn_all2. unfold Buf.length. rewrite length_skipn. lia.
Qed.

Lemma decodeString_throws (data : Buffer) (e : exn) :
  Varint.decode data = Throw e -> decodeString data = Throw e.
Proof. intros H. unfold decodeString. now rewrite H. Qed.

(** What [decodeString] answers when the string fits with room to spare. *)
Lemma decodeString_fits (data : Buffer) (num size : Z) :
  Varint.decode data = Ok (num, size) ->
  num < Buf.length data - size ->
  decodeString data =
    Ok (Buf.toString (firstn (Z.to_nat num) (skipn (Z.to_nat size) data)),
        skipn (Z.to_nat (num + size)) data).
Proof.
  intros H L. destruct (varint_decode_bounds _ _ _ H) as [Hn Hs].
  unfold decodeString. rewrite H. cbn [bind fst snd].
  destruct (Z.leb_spec size 0); [lia|].
  destruct (Z.leb_spec (Buf.length data - size) num); [lia|]. cbn [orb].
  destruct (slice_in_range data size (num + size)) as [E _]; [lia | lia |].
  rewrite E, subarray_in_range by lia.
  now replace (num + size - size) with num by lia.
Qed.

(** C4, as the code has it.  When the varint prefix decodes to the length
    [num] in [size] bytes, [decodeString] answers the pair of the empty
    string and the empty buffer exactly when [size] is not positive or [num]
    is at least the number of bytes after the prefix; otherwise it answers
    the [num] bytes after the prefix as the string, and the bytes after
    them.  A string that fills the rest of the buffer exactly is among the
    rejected ones. *)
Theorem decodeString_rejects_from_remaining (data : Buffer) (num size : Z) :
  Varint.decode data = Ok (num, size) ->
  (decodeString data = Ok ("", []) <->
   size <= 0 \/ Buf.length data - size <= num)
  /\
  (~ (size <= 0 \/ Buf.length data - size <= num) ->
   decodeString data =
     Ok (Buf.toString (firstn (Z.to_nat num) (skipn (Z.to_nat size) data)),
         skipn (Z.to_nat (num + size)) data)).
Proof.
  intros H. destruct (varint_decode_bounds _ _ _ H) as [Hn Hs].
  split.
  - split.
    + intros E.
      destruct (Z.le_gt_cases (Buf.length data - size) num) as [|L]; [now right|].
      rewrite (decodeString_fits _ _ _ H) in E by lia.
      injection E as _ E. exfalso.
      apply (f_equal (@List.length byte)) in E. rewrite length_skipn in E.
      unfold Buf.length in *. simpl in E. lia.
    + intros C. unfold decodeString. rewrite H. cbn [bind fst snd].
      destruct (Z.leb_spec size 0); [reflexivity|].
      destruct (Z.leb_spec (Buf.length data - size) num); [reflexivity | lia].
  - intros C. apply (decodeString_fits _ _ _ H). lia.
Qed.

Lemma decodeString_rejects_from_remaining_witness :
  decodeString [x02; x67; x6f; x00] = Ok ("go", [x00])
  /\ decodeString [x02; x67; x6f] = Ok ("", []).
Proof.
  split.
  - destruct (decodeString_rejects_from_remaining [x02; x67; x6f; x00] 2 1) as [_ F].
    + vm_compute. reflexivity.
    + rewrite F; [reflexivity|]. vm_compute. intros [C|C]; apply C; reflexivity.
  - apply (decodeString_rejects_from_remaining [x02; x67; x6f] 2 1).
    + vm_compute. reflexivity.
    + right. vm_compute. discriminate.
Defined.

(** C4, as stated, fails: the buffer [[2; 'g'; 'o']] holds a string that
    fills the rest of the buffer exactly, the length 2 does not exceed the 2
    bytes that remain, and yet the answer is the empty pair. *)
Lemma decodeString_exact_fill_rejected :
  ~ (forall (data : Buffer) (num size : Z),
       Varint.decode data = Ok (num, size) ->
       (decodeString data = Ok ("", []) <->
        size <= 0 \/ Buf.length data - size < num)).
Proof.
  intros all.
  destruct (all [x02; x67; x6f] 2 1 eq_refl) as [H _].
  destruct (H eq_refl) as [C|C]; vm_compute in C; [apply C; reflexivity | discriminate].
Qed.

(** ** Pointer readers *)

Lemma round_to_double_small (z : Z) : z < 2 ^ 53 -> round_to_double z = z.
Proof. intros H. unfold round_to_double. destruct (Z.ltb_spec z (2 ^ 53)); [reflexivity | lia]. Qed.

Lemma be_value_4_bound (b0 b1 b2 b3 : byte) : Buf.be_value [b0; b1; b2; b3] < 2 ^ 53.
Proof.
  pose proof (byte_val_range b0). pose proof (byte_val_range b1).
  pose proof (byte_val_range b2). pose proof (byte_val_range b3).
  unfold Buf.be_value. cbn [fold_left]. lia.
Qed.

Lemma select_readPtr_unsigned (ptrSize : Z) (bigEndian : bool) (buf : Buffer) :
  select_readPtr ptrSize bigEndian buf =
  read_unsigned (if bigEndian then BigEndian else LittleEndian) (reader_width ptrSize) buf.
Proof.
  unfold select_readPtr, reader_width, read_unsigned.
  destruct (ptrSize =? 4), bigEndian.
  - destruct buf as [|b0 [|b1 [|b2 [|b3 rest]]]]; try reflexivity.
    cbn. now rewrite round_to_double_small by apply be_value_4_bound.
  - destruct buf as [|b0 [|b1 [|b2 [|b3 rest]]]]; try reflexivity.
    cbn. now rewrite round_to_double_small by apply be_value_4_bound.
  - destruct buf as [|b0 [|b1 [|b2 [|b3 [|b4 [|b5 [|b6 [|b7 rest]]]]]]]]; reflexivity.
  - destruct buf as [|b0 [|b1 [|b2 [|b3 [|b4 [|b5 [|b6 [|b7 rest]]]]]]]]; reflexivity.
Qed.

(** C5, as the code has it.  In pointer mode the decoder reads an address
    as a big-endian unsigned integer exactly when the flags byte is not
    zero, and as a little-endian one when the flags byte is zero; for the
    flags 0 and 1 this is the value of bit 0. *)
Theorem readPtr_big_endian_iff_flags_nonzero (ptrSize flags : Z) (buf : Buffer) :
  js_and flags 2 = 0 ->
  readPtr_of_header ptrSize flags buf =
    read_unsigned (if flags =? 0 then LittleEndian else BigEndian)
                  (reader_width ptrSize) buf
  /\ (flags = 0 \/ flags = 1 ->
      readPtr_of_header ptrSize flags buf =
        read_unsigned (if Z.testbit flags 0 then BigEndian else LittleEndian)
                      (reader_width ptrSize) buf).
Proof.
  intros _. unfold readPtr_of_header, bigEndian_of_flags.
  rewrite select_readPtr_unsigned. split.
  - now destruct (flags =? 0).
  - now intros [-> | ->].
Qed.

Lemma readPtr_big_endian_iff_flags_nonzero_witness :
  readPtr_of_header 4 1 [x00; x00; x10; x00] = Ok 4096
  /\ readPtr_of_header 8 0 [x00; x10; x00; x00; x00; x00; x00; x00] = Ok 4096.
Proof.
  split.
  - destruct (readPtr_big_endian_iff_flags_nonzero 4 1 [x00; x00; x10; x00]) as [E _].
    + vm_compute. reflexivity.
    + rewrite E. vm_compute. reflexivity.
  - destruct (readPtr_big_endian_iff_flags_nonzero 8 0
                [x00; x10; x00; x00; x00; x00; x00; x00]) as [E _].
    + vm_compute. reflexivity.
    + rewrite E. vm_compute. reflexivity.
Defined.

(** C5, as stated, fails: the flags byte 4 has bits 0 and 1 clear, so the
    header is in pointer mode and bit 0 asks for little-endian, but the
    decoder reads big-endian. *)
Lemma readPtr_flags_4_reads_big_endian :
  ~ (forall (ptrSize flags : Z) (buf : Buffer),
       0 <= flags < 256 ->
       js_and flags 2 = 0 ->
       readPtr_of_header ptrSize flags buf =
         read_unsigned (if Z.testbit flags 0 then BigEndian else LittleEndian)
                       (reader_width ptrSize) buf).
Proof.
  intros all.
  specialize (all 4 4 [x01; x00; x00; x00] ltac:(lia) eq_refl).
  vm_compute in all. discriminate.
Qed.

(** ** Build-info locator *)

(** A buffer that the loop body hands back unchanged keeps the loop going
    for ever. *)
Lemma scan_loop_stuck (data : Buffer) :
  scan_body data = Again data -> forall fuel, scan_loop fuel data = None.
Proof.
  intros H fuel. induction fuel as [|fuel IH]; simpl; [reflexivity|].
  now rewrite H.
Qed.

Lemma scan_loop_again (data data' : Buffer) (fuel : nat) :
  scan_body data = Again data' -> scan_loop (S fuel) data = scan_loop fuel data'.
Proof. intros H. simpl. now rewrite H. Qed.

(** The skip of the loop for a match at offset 1 is 0 bytes, and for a
    match at offset 7 it is 6 bytes. *)
Example skip_of_offset_1 : js_and (1 + buildInfoAlign - 1) (js_not buildInfoAlign) = 0.
Proof. reflexivity. Qed.

Example skip_of_offset_7 : js_and (7 + buildInfoAlign - 1) (js_not buildInfoAlign) = 6.
Proof. reflexivity. Qed.

(** C2 on the code.  The buffer has the magic at offset 7 and nowhere else,
    with 32 bytes from the magic to the end.  The first pass skips 6 bytes,
    which leaves the magic at offset 1; from there every pass skips 0 bytes,
    so the loop neither finds a match nor throws, whatever the number of
    passes. *)
Theorem readRawBuildInfo_misaligned_diverges :
  JsString.indexOf (Buf.toString Fixture.misalignedData) buildInfoMagic = 7
  /\ JsString.includes
       (JsString.drop 8 (Buf.toString Fixture.misalignedData)) buildInfoMagic = false
  /\ scan_body Fixture.misalignedData = Again (Buf.subarray Fixture.misalignedData 6)
  /\ scan_body (Buf.subarray Fixture.misalignedData 6)
     = Again (Buf.subarray Fixture.misalignedData 6)
  /\ (forall fuel, scan_loop fuel Fixture.misalignedData = None)
  /\ (forall fuel, readRawBuildInfo fuel Fixture.misalignedElf = None).
Proof.
  assert (H0 : scan_body Fixture.misalignedData
               = Again (Buf.subarray Fixture.misalignedData 6))
    by (vm_compute; reflexivity).
  assert (H1 : scan_body (Buf.subarray Fixture.misalignedData 6)
               = Again (Buf.subarray Fixture.misalignedData 6))
    by (vm_compute; reflexivity).
  assert (L : forall fuel, scan_loop fuel Fixture.misalignedData = None).
  { intros [|fuel]; [reflexivity|].
    rewrite (scan_loop_again _ _ _ H0). now apply scan_loop_stuck. }
  split; [vm_compute; reflexivity|].
  split; [vm_compute; reflexivity|].
  split; [exact H0|]. split; [exact H1|]. split; [exact L|].
  intros fuel. unfold readRawBuildInfo.
  replace (match readData (programs Fixture.misalignedElf)
                   (dataStart Fixture.misalignedElf) (64 * 1024) with
           | Some d => d
           | None => []
           end) with Fixture.misalignedData by (vm_compute; reflexivity).
  now rewrite L.
Qed.

(** With fewer than 32 bytes from the misaligned magic to the end of the
    buffer, the first pass throws. *)
Example scan_short_misaligned :
  scan_loop 1 (repeat x00 7 ++ list_byte_of_string buildInfoMagic ++ repeat x00 17)
  = Some (Throw NotGoExecutable).
Proof. vm_compute. reflexivity. Qed.

(** ** The constructor *)

(** C3, as the code has it.  For an image without a [.gopclntab] section the
    constructor never answers a [GoBinary].  It reads the module
    information first: an error of [extractModuleInformation] is the error
    of the constructor, and only when the module information has been
    extracted does the constructor throw "no pcln table present in Go
    binary". *)
Theorem newGoBinary_without_pclntab
  (go12MapFiles : Buffer -> result (list string)) (fuel : nat) (goElfBinary : Elf) :
  lacks_pclntab goElfBinary ->
  (forall info, extractModuleInformation fuel goElfBinary = Some (Ok info) ->
                newGoBinary go12MapFiles fuel goElfBinary = Some (Throw NoPclnTab))
  /\ (forall e, extractModuleInformation fuel goElfBinary = Some (Throw e) ->
                newGoBinary go12MapFiles fuel goElfBinary = Some (Throw e))
  /\ (forall binary, newGoBinary go12MapFiles fuel goElfBinary <> Some (Ok binary)).
Proof.
  unfold lacks_pclntab, newGoBinary. intros H.
  destruct (extractModuleInformation fuel goElfBinary) as [[[name modules]|e]|];
    rewrite ?H; repeat split; intros; congruence.
Qed.

Lemma newGoBinary_without_pclntab_witness :
  newGoBinary Fixture.noFiles 1 Fixture.vetElf = Some (Throw NoPclnTab).
Proof.
  destruct (newGoBinary_without_pclntab Fixture.noFiles 1 Fixture.vetElf) as [H _].
  - reflexivity.
  - apply (H (Some "go-distribution@cmd/vet", [])). vm_compute. reflexivity.
Defined.

(** C3, as stated, fails: the image with no section and no segment lacks
    [.gopclntab], and constructing a [GoBinary] from it throws "not a Go
    executable", with any number of passes allowed to the scan. *)
Lemma newGoBinary_empty_elf_not_go_executable :
  ~ (forall (go12MapFiles : Buffer -> result (list string)) (goElfBinary : Elf),
       lacks_pclntab goElfBinary ->
       exists fuel,
         newGoBinary go12MapFiles fuel goElfBinary = Some (Throw NoPclnTab)).
Proof.
  intros all.
  destruct (all Fixture.noFiles Fixture.emptyElf eq_refl) as [[|fuel] H];
    vm_compute in H; discriminate.
Qed.

Example newGoBinary_empty_elf :
  newGoBinary Fixture.noFiles 1 Fixture.emptyElf = Some (Throw NotGoExecutable).
Proof. reflexivity. Qed.

(** ** Path classifier *)

Lemma extends_refl (m : GoModule) : extends m m.
Proof. unfold extends. intuition. Qed.

Lemma extends_trans (a b c : GoModule) : extends a b -> extends b c -> extends a c.
Proof.
  unfold extends. intros (N1 & V1 & P1 & D1) (N2 & V2 & P2 & D2).
  repeat split; try congruence; [|tauto].
  intros p Hp. destruct (P2 p Hp) as [H|H]; [auto | right; congruence].
Qed.

Lemma packages_include_In (pkgs : list string) (pkgName : string) :
  packages_include pkgs pkgName = true <-> In pkgName pkgs.
Proof.
  unfold packages_include. rewrite existsb_exists. split.
  - intros (x & Hx & E). apply String.eqb_eq in E. now subst.
  - intros H. exists pkgName. split; [assumption | apply String.eqb_refl].
Qed.

(** The package name of a file begins with the name of the module. *)
Lemma packageName_prefix (module : GoModule) (modFullName pkgFile pkgName : string) :
  packageName module modFullName pkgFile = Ok pkgName ->
  JsString.startsWith pkgName (name module) = true.
Proof.
  unfold packageName.
  destruct (JsString.split pkgFile modFullName) as [|p0 [|p1 [|p2 ps]]]; try discriminate.
  destruct (String.eqb p0 ""); [|discriminate].
  intros H. injection H as <-. apply startsWith_app.
Qed.

Lemma addPackage_extends (module : GoModule) (pkgName : string) :
  JsString.startsWith pkgName (name module) = true ->
  extends module (addPackage module pkgName).
Proof.
  intros H. unfold addPackage.
  destruct (packages_include (packages module) pkgName) eqn:E; [apply extends_refl|].
  unfold extends. cbn [name version packages]. repeat split.
  - intros p Hp. apply in_app_or in Hp as [Hp|[<-|[]]]; auto.
  - intros ND. apply NoDup_app; [assumption | repeat constructor; intros [] | ].
    intros p Hp [<-|[]]. apply packages_include_In in Hp. congruence.
Qed.

Lemma matchFile_extends (moduleName : GoModule -> string) (pkgFile : string)
  (modules modules' : list GoModule) :
  matchFile moduleName pkgFile modules = Ok modules' ->
  Forall2 extends modules modules'.
Proof.
  revert modules'; induction modules as [|m ms IH]; intros modules' H; simpl in H.
  - injection H as <-. constructor.
  - destruct (JsString.startsWith pkgFile (moduleName m)).
    + destruct (packageName m (moduleName m) pkgFile) as [pkgName|e] eqn:P;
        [|discriminate]. cbn [bind] in H.
      destruct (matchFile moduleName pkgFile ms) as [rest|e]; [|discriminate].
      injection H as <-. constructor; [|now apply IH].
      apply addPackage_extends. eapply packageName_prefix; eassumption.
    + destruct (matchFile moduleName pkgFile ms) as [rest|e]; [|discriminate].
      injection H as <-. constructor; [apply extends_refl | now apply IH].
Qed.

Lemma Forall2_extends_refl (modules : list GoModule) : Forall2 extends modules modules.
Proof. induction modules; constructor; [apply extends_refl | assumption]. Qed.

Lemma Forall2_extends_trans (a b c : list GoModule) :
  Forall2 extends a b -> Forall2 extends b c -> Forall2 extends a c.
Proof.
  intros H; revert c; induction H; intros c Hc; inversion Hc; subst; constructor.
  - eapply extends_trans; eassumption.
  - auto.
Qed.

Lemma matchFiles_extends (paths : Paths) (files : list string)
  (modules modules' : list GoModule) :
  matchFiles paths files modules = Ok modules' ->
  Forall2 extends modules modules'.
Proof.
  revert modules; induction files as [|f fs IH]; intros modules H; simpl in H.
  - injection H as <-. apply Forall2_extends_refl.
  - destruct (classify paths f) as [[moduleName pkgFile]|]; [|now apply IH].
    destruct (matchFile moduleName pkgFile modules) as [mid|e] eqn:M; [|discriminate].
    cbn [bind] in H. eapply Forall2_extends_trans.
    + eapply matchFile_extends; eassumption.
    + now apply IH.
Qed.

Lemma Forall2_nth_error_r {A B} (R : A -> B -> Prop) (l : list A) (l' : list B) :
  Forall2 R l l' ->
  forall i y, nth_error l' i = Some y -> exists x, nth_error l i = Some x /\ R x y.
Proof.
  induction 1 as [|x y l l' Hxy H IH]; intros [|i] z Hz; simpl in *;
    try discriminate.
  - injection Hz as <-. eauto.
  - eauto.
Qed.

(** After classification every package of a module that started without
    packages begins with the name of the module. *)
Lemma matchFilesToModules_prefix (modules modules' : list GoModule) (files : list string) :
  Forall (fun m => packages m = []) modules ->
  matchFilesToModules modules files = Ok modules' ->
  forall i m' p, nth_error modules' i = Some m' -> In p (packages m') ->
    exists m, nth_error modules i = Some m /\ name m' = name m
              /\ JsString.startsWith p (name m') = true.
Proof.
  intros Hfresh H i m' p Hi Hp.
  apply matchFiles_extends in H.
  destruct (Forall2_nth_error_r _ _ _ H i m' Hi) as (m & Hm & N & _ & P & _).
  exists m. repeat split; try assumption.
  rewrite Forall_forall in Hfresh.
  rewrite (Hfresh m (nth_error_In _ _ Hm)) in P.
  destruct (P p Hp) as [[]|S]. now rewrite N.
Qed.

Example plain_classification :
  matchFilesToModules plainModules plainFiles =
    Ok [mkGoModule "example.com/a" "v1.0.0" ["example.com/a"];
        mkGoModule "example.com/b" "v2.1.0" ["example.com/b/x"]].
Proof. vm_compute. reflexivity. Qed.

Example nested_paths :
  determinePaths nestedModules nestedFiles = mkPaths "" "/app/vendor/".
Proof. vm_compute. reflexivity. Qed.

Example nested_classification :
  matchFilesToModules nestedModules nestedFiles =
    Ok [mkGoModule "example.com/a" "v1.0.0" ["example.com/a/sub"];
        mkGoModule "example.com/a/sub" "v0.2.0" ["example.com/a/sub"]].
Proof. vm_compute. reflexivity. Qed.

(** A module that started without packages lists no package twice. *)
Lemma classified_NoDup (modules modules' : list GoModule) :
  Forall (fun m => packages m = []) modules ->
  Forall2 extends modules modules' ->
  forall m', In m' modules' -> NoDup (packages m').
Proof.
  intros Hfresh E m' Hin. apply In_nth_error in Hin as [i Hi].
  destruct (Forall2_nth_error_r _ _ _ E i m' Hi) as (m & Hm & _ & _ & _ & ND).
  apply ND. rewrite Forall_forall in Hfresh.
  rewrite (Hfresh m (nth_error_In _ _ Hm)). constructor.
Qed.

(** Packages that begin with the names of their modules cannot be shared
    by two modules whose names are not prefixes of one another. *)
Lemma prefixed_packages_disjoint (modules modules' : list GoModule) :
  (forall i m' p, nth_error modules' i = Some m' -> In p (packages m') ->
     exists m, nth_error modules i = Some m /\ name m' = name m
               /\ JsString.startsWith p (name m') = true) ->
  names_prefix_free modules -> packages_disjoint modules'.
Proof.
  intros Hpre Hfree i j mi mj p Hij Hi Hj Hpi Hpj.
  destruct (Hpre i mi p Hi Hpi) as (ni & Hni & Ni & Si).
  destruct (Hpre j mj p Hj Hpj) as (nj & Hnj & Nj & Sj).
  destruct (startsWith_comparable _ _ _ Si Sj) as [C|C]; rewrite Ni, Nj in C.
  - rewrite (Hfree j i nj ni) in C by auto. discriminate.
  - rewrite (Hfree i j ni nj) in C by auto. discriminate.
Qed.

(** C1, as the code has it.  After a classification that succeeds on
    modules that start without packages, no module lists a package name
    twice, and when no module's name is a prefix of another module's name, no
    package name is listed under two modules. *)
Theorem matchFilesToModules_packages_disjoint
  (modules modules' : list GoModule) (files : list string) :
  Forall (fun m => packages m = []) modules ->
  matchFilesToModules modules files = Ok modules' ->
  (forall m', In m' modules' -> NoDup (packages m'))
  /\ (names_prefix_free modules -> packages_disjoint modules').
Proof.
  intros Hfresh H. split.
  - apply (classified_NoDup modules); [assumption|].
    eapply matchFiles_extends; eassumption.
  - apply prefixed_packages_disjoint.
    intros i m' p. now apply matchFilesToModules_prefix with (files := files).
Qed.

Lemma names_prefix_free_plain : names_prefix_free plainModules.
Proof.
  intros i j mi mj Hij Hi Hj.
  destruct i as [|[|i]], j as [|[|j]]; simpl in Hi, Hj;
    try congruence;
    try (injection Hi as <-); try (injection Hj as <-);
    try reflexivity;
    try (destruct i; discriminate); try (destruct j; discriminate).
Qed.

Lemma matchFilesToModules_packages_disjoint_witness :
  (forall m', In m' [mkGoModule "example.com/a" "v1.0.0" ["example.com/a"];
                     mkGoModule "example.com/b" "v2.1.0" ["example.com/b/x"]] ->
              NoDup (packages m'))
  /\ packages_disjoint [mkGoModule "example.com/a" "v1.0.0" ["example.com/a"];
                        mkGoModule "example.com/b" "v2.1.0" ["example.com/b/x"]].
Proof.
  destruct (matchFilesToModules_packages_disjoint plainModules
              [mkGoModule "example.com/a" "v1.0.0" ["example.com/a"];
               mkGoModule "example.com/b" "v2.1.0" ["example.com/b/x"]]
              plainFiles) as [ND D].
  - repeat constructor.
  - vm_compute. reflexivity.
  - split; [exact ND | exact (D names_prefix_free_plain)].
Defined.

(** C1, as stated, fails: in a vendored build with the modules
    [example.com/a] and [example.com/a/sub], the file
    [/app/vendor/example.com/a/sub/x.go] matches both names, and the package
    [example.com/a/sub] is listed under both modules. *)
Lemma matchFilesToModules_nested_modules_share_package :
  ~ (forall (modules modules' : list GoModule) (files : list string),
       Forall (fun m => packages m = []) modules ->
       matchFilesToModules modules files = Ok modules' ->
       packages_disjoint modules').
Proof.
  intros all.
  assert (F : Forall (fun m => packages m = []) nestedModules) by (repeat constructor).
  specialize (all nestedModules _ nestedFiles F nested_classification).
  apply (all 0%nat 1%nat _ _ "example.com/a/sub" ltac:(discriminate) eq_refl eq_refl);
    simpl; auto.
Qed.

(** C7 on the code.  In a trimmed build the file
    [example.com/b@v2.1.0/x//y.go] is classified without error, and the
    package it adds to the module [example.com/b] is [example.com/b/x/], with
    a slash at its end: the directory of [/x//y.go] is [/x/], and only the
    directory [/] is replaced by the empty string. *)
Theorem matchFilesToModules_trailing_slash :
  Path.parse_dir "/x//y.go" = "/x/"
  /\ matchFilesToModules doubleSlashModules doubleSlashFiles =
       Ok [mkGoModule "example.com/b" "v2.1.0" ["example.com/b/x/"]].
Proof. split; vm_compute; reflexivity. Qed.

(** C10. For the empty file list the list is taken as trimmed, both
    prefixes are empty, no file is matched, and the modules come back as they
    were: modules without packages stay without packages. *)
Theorem matchFilesToModules_no_files (modules : list GoModule) :
  isTrimmed [] = true
  /\ determinePaths modules [] = mkPaths "" ""
  /\ matchFilesToModules modules [] = Ok modules
  /\ (forall modules',
        matchFilesToModules modules [] = Ok modules' ->
        Forall (fun m => packages m = []) modules ->
        Forall (fun m => packages m = []) modules').
Proof.
  repeat split. intros modules' H. now injection H as <-.
Qed.

Lemma matchFilesToModules_no_files_witness :
  matchFilesToModules plainModules [] = Ok plainModules
  /\ Forall (fun m => packages m = []) plainModules.
Proof.
  destruct (matchFilesToModules_no_files plainModules) as (_ & _ & E & F).
  split; [exact E|].
  apply (F plainModules E). repeat constructor.
Defined.

(** ** From the image to the package lists *)

(** The slice the locator hands to the decoder holds the 32-byte header,
    so the reads of bytes 14 and 15 are inside it. *)
Lemma scan_loop_found_header (fuel : nat) (data found : Buffer) :
  scan_loop fuel data = Some (Ok found) -> buildInfoSize <= Buf.length found.
Proof.
  revert data; induction fuel as [|fuel IH]; intros data H; simpl in H;
    [discriminate|].
  destruct (scan_body data) as [d|d|e] eqn:B; [|eauto|discriminate].
  injection H as <-. unfold scan_body in B.
  set (i := JsString.indexOf (Buf.toString data) buildInfoMagic) in *.
  destruct (Z.ltb_spec i 0); [discriminate|]. cbn [orb] in B.
  destruct (Z.ltb_spec (Buf.length data - i) buildInfoSize); [discriminate|].
  destruct (_ && _); [|discriminate]. injection B as <-.
  unfold buildInfoSize in *.
  rewrite subarray_in_range by lia.
  unfold Buf.length in *. rewrite length_skipn. lia.
Qed.

(** The modules of the module info start without packages. *)
Lemma modules_of_lines_fresh (versionsLines : list string) :
  Forall (fun m => packages m = []) (modules_of_lines versionsLines).
Proof.
  unfold modules_of_lines. apply Forall_forall. intros m Hm.
  apply in_flat_map in Hm as (l & _ & Hm).
  unfold module_of_line in Hm.
  destruct (at_index _ 1) as [n|]; [|destruct Hm].
  destruct (at_index _ 2) as [v|]; [|destruct Hm].
  destruct (_ || _); [destruct Hm|]. destruct Hm as [<-|[]]. reflexivity.
Qed.

Lemma extractModuleInformation_fresh (fuel : nat) (binary : Elf)
  (binaryName : option string) (modules : list GoModule) :
  extractModuleInformation fuel binary = Some (Ok (binaryName, modules)) ->
  Forall (fun m => packages m = []) modules.
Proof.
  unfold extractModuleInformation.
  destruct (readRawBuildInfo fuel binary) as [[mod_|e]|]; try discriminate.
  destruct (String.eqb mod_ ""); [discriminate|].
  unfold parseModuleInfo.
  destruct (JsString.split mod_ LF) as [|p [|m vs]]; try discriminate.
  intros H. injection H as _ <-. apply modules_of_lines_fresh.
Qed.

Lemma names_prefix_free_extends (modules modules' : list GoModule) :
  Forall2 extends modules modules' ->
  names_prefix_free modules' -> names_prefix_free modules.
Proof.
  intros E H i j mi mj Hij Hi Hj.
  assert (T : forall k m, nth_error modules k = Some m ->
              exists m', nth_error modules' k = Some m' /\ name m' = name m).
  { clear -E. induction E as [|x y l l' Hxy _ IH]; intros [|k] m Hk; simpl in *;
      try discriminate.
    - injection Hk as <-. exists y. split; [reflexivity | apply Hxy].
    - now apply IH. }
  destruct (T i mi Hi) as (mi' & Hi' & <-).
  destruct (T j mj Hj) as (mj' & Hj' & <-).
  now apply (H i j).
Qed.

(** The same for a whole analysis: in the [GoBinary] an analysis answers,
    no module lists a package twice, and modules whose names do not nest
    share no package. *)
Corollary newGoBinary_packages_disjoint
  (go12MapFiles : Buffer -> result (list string)) (fuel : nat) (goElfBinary : Elf)
  (binary : GoBinary) :
  newGoBinary go12MapFiles fuel goElfBinary = Some (Ok binary) ->
  (forall m, In m (modules binary) -> NoDup (packages m))
  /\ (names_prefix_free (modules binary) -> packages_disjoint (modules binary)).
Proof.
  unfold newGoBinary.
  destruct (extractModuleInformation fuel goElfBinary) as [[[n ms]|e]|] eqn:X;
    try discriminate.
  destruct (find _ _) as [pclnTab|]; [|discriminate].
  destruct (go12MapFiles _) as [files|e]; [|discriminate]. cbn [bind].
  destruct (matchFilesToModules ms files) as [ms'|e] eqn:M; [|discriminate].
  cbn [bind]. intros H. injection H as <-. cbn [modules].
  pose proof (extractModuleInformation_fresh _ _ _ _ X) as F.
  pose proof (matchFiles_extends _ _ _ _ M) as E.
  split.
  - now apply (classified_NoDup ms).
  - intros Hfree. apply (prefixed_packages_disjoint ms).
    + intros i m' p. now apply matchFilesToModules_prefix with (files := files).
    + now apply (names_prefix_free_extends ms ms').
Qed.

(** * Further properties of the code *)

(** ** More on strings and buffers *)

Lemma indexOf_cons (c : ascii) (s needle : string) :
  JsString.indexOf (String c s) needle =
  if JsString.startsWith (String c s) needle then 0
  else if JsString.indexOf s needle <? 0 then -1
  else 1 + JsString.indexOf s needle.
Proof.
  unfold JsString.indexOf. cbn [JsString.indexOf_from].
  destruct (JsString.startsWith (String c s) needle); [reflexivity|].
  apply indexOf_from_shift.
Qed.

Lemma indexOf_nil (needle : string) :
  JsString.indexOf "" needle = if JsString.startsWith "" needle then 0 else -1.
Proof. reflexivity. Qed.

Lemma indexOf_range (s needle : string) :
  JsString.indexOf s needle = -1
  \/ 0 <= JsString.indexOf s needle <= Z.of_nat (String.length s).
Proof.
  induction s as [|c s IH].
  - rewrite indexOf_nil. destruct (JsString.startsWith "" needle); simpl; lia.
  - rewrite indexOf_cons. cbn [String.length].
    destruct (JsString.startsWith (String c s) needle); [lia|].
    destruct (Z.ltb_spec (JsString.indexOf s needle) 0); lia.
Qed.

(** [includes], one character at a time. *)
Lemma includes_cons (c : ascii) (s needle : string) :
  JsString.includes (String c s) needle =
  JsString.startsWith (String c s) needle || JsString.includes s needle.
Proof.
  unfold JsString.includes. rewrite indexOf_cons.
  destruct (JsString.startsWith (String c s) needle); [reflexivity|]. cbn [orb].
  destruct (indexOf_range s needle) as [E|E].
  - rewrite E. reflexivity.
  - destruct (Z.ltb_spec (JsString.indexOf s needle) 0); [lia|].
    transitivity true; [apply Z.leb_le; lia | symmetry; apply Z.leb_le; lia].
Qed.

(** The offset [indexOf] answers is a match, and the first one. *)
Lemma indexOf_first (s needle : string) (k : nat) :
  JsString.indexOf s needle = Z.of_nat k ->
  JsString.startsWith (JsString.drop k s) needle = true
  /\ forall j, (j < k)%nat -> JsString.startsWith (JsString.drop j s) needle = false.
Proof.
  revert k; induction s as [|c s IH]; intros k H.
  - rewrite indexOf_nil in H.
    destruct (JsString.startsWith "" needle) eqn:E; [|lia].
    assert (k = 0%nat) by lia. subst. split; [exact E | intros j Hj; lia].
  - rewrite indexOf_cons in H.
    destruct (JsString.startsWith (String c s) needle) eqn:E.
    + assert (k = 0%nat) by lia. subst. split; [exact E | intros j Hj; lia].
    + destruct (Z.ltb_spec (JsString.indexOf s needle) 0); [lia|].
      destruct k as [|k]; [lia|].
      destruct (IH k ltac:(lia)) as [M F]. split; [exact M|].
      intros [|j] Hj; [exact E | apply F; lia].
Qed.

(** Dropping characters before the first match moves the match. *)
Lemma indexOf_drop (s needle : string) (k : nat) :
  Z.of_nat k <= JsString.indexOf s needle ->
  JsString.indexOf (JsString.drop k s) needle = JsString.indexOf s needle - Z.of_nat k.
Proof.
  revert s; induction k as [|k IH]; intros s H.
  - destruct s; simpl; lia.
  - destruct s as [|c s].
    + rewrite indexOf_nil in H. destruct (JsString.startsWith "" needle); lia.
    + cbn [JsString.drop]. rewrite indexOf_cons in H |- *.
      destruct (JsString.startsWith (String c s) needle); [lia|].
      destruct (Z.ltb_spec (JsString.indexOf s needle) 0); [lia|].
      rewrite IH by lia. lia.
Qed.

Lemma toString_app (a b : Buffer) :
  Buf.toString (a ++ b) = (Buf.toString a ++ Buf.toString b)%string.
Proof.
  unfold Buf.toString, string_of_list_byte.
  induction a as [|x a IH]; simpl; [reflexivity | now rewrite IH].
Qed.

Lemma toString_skipn (k : nat) (b : Buffer) :
  Buf.toString (skipn k b) = JsString.drop k (Buf.toString b).
Proof.
  unfold Buf.toString, string_of_list_byte.
  revert b; induction k as [|k IH]; intros [|x b]; simpl; auto.
Qed.

Lemma toString_length (b : Buffer) :
  String.length (Buf.toString b) = List.length b.
Proof.
  unfold Buf.toString, string_of_list_byte.
  induction b as [|x b IH]; simpl; [reflexivity | now rewrite IH].
Qed.

Lemma toString_of_string (s : string) : Buf.toString (list_byte_of_string s) = s.
Proof. apply string_of_list_byte_of_string. Qed.


(** ** Segment reader and data start *)

(** The length of a slice with offsets that are not negative. *)
Lemma slice_length_nonneg (b : Buffer) (from to : Z) :
  0 <= from -> 0 <= to ->
  Buf.length (Buf.slice b from to) =
  Z.max 0 (Z.min to (Buf.length b) - Z.min from (Buf.length b)).
Proof.
  intros F T. unfold Buf.slice, Buf.length. rewrite length_firstn, length_skipn.
  set (len := Z.of_nat (List.length b)).
  assert (L : 0 <= len) by (subst len; lia).
  assert (Af : Buf.adjustOffset from len = Z.min from len).
  { unfold Buf.adjustOffset. destruct (Z.eqb_spec from 0); [lia|].
    destruct (Z.ltb_spec from 0); [lia|]. destruct (Z.ltb_spec from len); lia. }
  assert (At : Buf.adjustOffset to len = Z.min to len).
  { unfold Buf.adjustOffset. destruct (Z.eqb_spec to 0); [lia|].
    destruct (Z.ltb_spec to 0); [lia|]. destruct (Z.ltb_spec to len); lia. }
  rewrite Af, At.
  destruct (Z.ltb_spec (Z.min from len) (Z.min to len)); subst len; lia.
Qed.

(** The number of bytes [readData] may take is not negative. *)
Lemma covers_available (addr : Z) (program : ElfProgram) :
  covers addr program = true ->
  0 <= js_sub addr (vaddr program)
  /\ 0 <= js_sub (js_add (vaddr program) (filesz program)) addr.
Proof.
  unfold covers, js_sub, js_add. intros C.
  apply andb_true_iff in C as [C1 C2]. apply Z.leb_le in C1, C2.
  set (S := fl (vaddr program + filesz program)) in *.
  split; [apply fl_nonneg; lia|].
  apply fl_nonneg.
  pose proof (fl_mono (S - 1) S ltac:(lia)) as M.
  unfold S at 2 in M. rewrite fl_idem in M. fold S in M. lia.
Qed.

(** [readData] answers at most [size] bytes. *)
Lemma readData_length_le (programs : list ElfProgram) (addr size : Z) (buf : Buffer) :
  0 <= size ->
  readData programs addr size = Some buf ->
  Buf.length buf <= size.
Proof.
  intros Hsize. induction programs as [|p ps IH]; simpl; [discriminate|].
  destruct (covers addr p) eqn:C; [|exact IH].
  intros H. injection H as <-.
  destruct (covers_available _ _ C) as [From Avail].
  set (from := js_sub addr (vaddr p)) in *.
  set (n := if size <? js_sub (js_add (vaddr p) (filesz p)) addr then size
            else js_sub (js_add (vaddr p) (filesz p)) addr).
  assert (N : 0 <= n <= size)
    by (subst n; destruct (Z.ltb_spec size (js_sub (js_add (vaddr p) (filesz p)) addr)); lia).
  pose proof (program_data_fits p) as Fits. apply Z.leb_le in Fits.
  unfold Buf.kMaxLength in Fits.
  assert (To : 0 <= js_add from n) by (apply fl_nonneg; lia).
  rewrite slice_length_nonneg by assumption.
  destruct (Z.lt_ge_cases (from + n) (2 ^ 53)) as [Small|Large].
  - unfold js_add. rewrite fl_small by lia. lia.
  - pose proof (fl_large (from + n) Large) as G. fold (js_add from n) in G. lia.
Qed.




(** X2. [dataStart] prefers a section named [.go.buildinfo], wherever it
    stands among the sections and whatever the segments are; without such a
    section it is the address of the first writable load segment, and
    without that either it is 0. *)
Theorem dataStart_precedence (binary : Elf) :
  (forall before section after,
     sections binary = before ++ section :: after ->
     (forall s, In s before -> is_buildinfo_section s = false) ->
     is_buildinfo_section section = true ->
     dataStart binary = section_addr section)
  /\ ((forall s, In s (sections binary) -> is_buildinfo_section s = false) ->
      (forall before program after,
         programs binary = before ++ program :: after ->
         (forall p, In p before -> is_writable_load p = false) ->
         is_writable_load program = true ->
         dataStart binary = vaddr program)
      /\ ((forall p, In p (programs binary) -> is_writable_load p = false) ->
          dataStart binary = 0)).
Proof.
  assert (F : forall A (f : A -> bool) before x after,
            (forall y, In y before -> f y = false) -> f x = true ->
            find f (before ++ x :: after) = Some x).
  { intros A f before x after Hb Hx. induction before as [|y ys IH]; simpl.
    - now rewrite Hx.
    - rewrite (Hb y) by now left. apply IH. intros z Hz. apply Hb. now right. }
  assert (N : forall A (f : A -> bool) l,
            (forall y, In y l -> f y = false) -> find f l = None).
  { intros A f l Hl. induction l as [|y ys IH]; simpl; [reflexivity|].
    rewrite (Hl y) by now left. apply IH. intros z Hz. apply Hl. now right. }
  unfold dataStart. fold is_buildinfo_section. fold is_writable_load.
  split.
  - intros before section after E Hb Hs. now rewrite E, (F _ _ _ _ _ Hb Hs).
  - intros Hnone. rewrite (N _ _ _ Hnone). split.
    + intros before program after E Hb Hp. now rewrite E, (F _ _ _ _ _ Hb Hp).
    + intros Hp. now rewrite (N _ _ _ Hp).
Qed.

Lemma dataStart_precedence_witness :
  dataStart (mkElf [mkSection ".text" 4096 []; mkSection ".go.buildinfo" 8192 []]
                   [mkProgram "load" true 12288 0 []]) = 8192.
Proof.
  destruct (dataStart_precedence
              (mkElf [mkSection ".text" 4096 []; mkSection ".go.buildinfo" 8192 []]
                     [mkProgram "load" true 12288 0 []])) as [H _].
  apply (H [mkSection ".text" 4096 []] (mkSection ".go.buildinfo" 8192 []) []).
  - reflexivity.
  - intros s [<-|[]]. reflexivity.
  - reflexivity.
Defined.

(** ** Build-info locator, in general *)

Lemma readRawBuildInfo_dataRegion (fuel : nat) (binary : Elf) :
  readRawBuildInfo fuel binary =
  match scan_loop fuel (dataRegion binary) with
  | None => None
  | Some (Throw e) => Some (Throw e)
  | Some (Ok data) => Some (decodeBuildInfo binary data)
  end.
Proof. reflexivity. Qed.

Lemma dataRegion_length (binary : Elf) : Buf.length (dataRegion binary) <= 64 * 1024.
Proof.
  unfold dataRegion.
  destruct (readData (programs binary) (dataStart binary) (64 * 1024)) as [d|] eqn:E.
  - apply readData_length_le in E; lia.
  - unfold Buf.length. simpl. lia.
Qed.

Lemma subarray_nonneg (b : Buffer) (from : Z) :
  0 <= from -> Buf.subarray b from = skipn (Z.to_nat from) b.
Proof.
  intros H. assert (P : 0 <= Buf.length b) by (unfold Buf.length; lia).
  destruct (Z.le_gt_cases from (Buf.length b)) as [L|L].
  - apply subarray_in_range. lia.
  - rewrite skipn_all2 by (unfold Buf.length in L; lia).
    unfold Buf.subarray, Buf.slice, Buf.adjustOffset.
    destruct (Z.eqb_spec from 0); [lia|].
    destruct (Z.ltb_spec from 0); [lia|].
    destruct (Z.ltb_spec from (Buf.length b)); [lia|].
    destruct (Z.eqb_spec (Buf.length b) 0) as [E|E].
    + rewrite E. reflexivity.
    + destruct (Z.ltb_spec (Buf.length b) 0); [lia|].
      rewrite !Z.ltb_irrefl. reflexivity.
Qed.

Lemma js_not_align : js_not buildInfoAlign = -17.
Proof. reflexivity. Qed.

(** Clearing bit 4. *)
Lemma ldiff_16 (x : Z) :
  Z.ldiff x 16 = if Z.testbit x 4 then x - 16 else x.
Proof.
  destruct (Z.testbit x 4) eqn:B.
  - symmetry. apply Z.sub_nocarry_ldiff.
    apply Z.bits_inj'. intros n Hn. rewrite Z.ldiff_spec, Z.bits_0.
    change 16 with (2 ^ 4) at 1. rewrite Z.pow2_bits_eqb by lia.
    destruct (Z.eqb_spec 4 n) as [<-|]; [now rewrite B | reflexivity].
  - apply Z.bits_inj'. intros n Hn. rewrite Z.ldiff_spec.
    change 16 with (2 ^ 4) at 1. rewrite Z.pow2_bits_eqb by lia.
    destruct (Z.eqb_spec 4 n) as [<-|]; [now rewrite B | now rewrite andb_true_r].
Qed.

Lemma skip_value (i : Z) :
  0 <= i < 2 ^ 30 ->
  js_and (i + buildInfoAlign - 1) (js_not buildInfoAlign) =
  if Z.testbit (i + 15) 4 then i - 1 else i + 15.
Proof.
  intros H. rewrite js_not_align. unfold js_and, buildInfoAlign.
  rewrite (to_int32_small (i + 16 - 1)), (to_int32_small (-17)) by lia.
  change (-17) with (Z.lnot 16). rewrite <- Z.ldiff_land, ldiff_16.
  replace (i + 16 - 1) with (i + 15) by lia.
  destruct (Z.testbit (i + 15) 4) eqn:B.
  - assert (16 <= i + 15).
    { destruct (Z.lt_ge_cases (i + 15) 16) as [L|L]; [|exact L].
      rewrite (Z.bits_above_log2 (i + 15) 4) in B; [discriminate | lia |].
      destruct (Z.eq_dec (i + 15) 0) as [E|E]; [rewrite E; simpl; lia|].
      apply Z.log2_lt_pow2; simpl; lia. }
    rewrite to_int32_small; lia.
  - rewrite to_int32_small; lia.
Qed.

(** The skip of the loop is not negative. *)
Lemma skip_range (i : Z) :
  0 <= i < 2 ^ 30 ->
  0 <= js_and (i + buildInfoAlign - 1) (js_not buildInfoAlign).
Proof.
  intros H. rewrite skip_value by assumption.
  destruct (Z.testbit (i + 15) 4) eqn:B; [|lia].
  destruct (Z.eq_dec i 0) as [->|]; [discriminate B | lia].
Qed.

(** With bit 4 of [i + 15] set, the skip is [i - 1]. *)
Lemma skip_back (i : Z) :
  0 <= i < 2 ^ 30 -> 1 <= i mod 32 <= 15 ->
  js_and (i + buildInfoAlign - 1) (js_not buildInfoAlign) = i - 1.
Proof.
  intros H M. rewrite skip_value by assumption.
  assert (B : Z.testbit (i + 15) 4 = true).
  { apply Z.testbit_true; [lia|]. change (2 ^ 4) with 16.
    Z.div_mod_to_equations. lia. }
  now rewrite B.
Qed.

Lemma magic_not_in_empty : JsString.startsWith "" buildInfoMagic = false.
Proof. reflexivity. Qed.

(** What a pass of the loop body does, by the offset of the first match. *)
Lemma scan_body_cases (data : Buffer) :
  Buf.length data < 2 ^ 30 ->
  let i := JsString.indexOf (Buf.toString data) buildInfoMagic in
  (scan_body data = Raise NotGoExecutable
   /\ (i = -1 \/ Buf.length data - i < buildInfoSize))
  \/ (0 <= i /\ buildInfoSize <= Buf.length data - i /\ i mod buildInfoAlign = 0
      /\ scan_body data = Found (skipn (Z.to_nat i) data))
  \/ (0 < i /\ buildInfoSize <= Buf.length data - i /\ i mod buildInfoAlign <> 0
      /\ exists skip,
           skip = js_and (i + buildInfoAlign - 1) (js_not buildInfoAlign)
           /\ 0 <= skip
           /\ scan_body data = Again (skipn (Z.to_nat skip) data)).
Proof.
  intros Hlen i. unfold scan_body. fold i.
  assert (R : i = -1 \/ 0 <= i <= Buf.length data).
  { subst i. destruct (indexOf_range (Buf.toString data) buildInfoMagic) as [E|E];
      [now left | right]. rewrite toString_length in E. exact E. }
  destruct (Z.ltb_spec i 0) as [N|N]; cbn [orb].
  - left. split; [reflexivity | lia].
  - destruct (Z.ltb_spec (Buf.length data - i) buildInfoSize) as [S|S].
    + left. split; [reflexivity | now right].
    + right. destruct (Z.eqb_spec (i mod buildInfoAlign) 0) as [A|A]; cbn [andb].
      * left. destruct (Z.leb_spec buildInfoSize (Buf.length data - i)); [|lia].
        rewrite subarray_nonneg by lia. auto.
      * right. assert (0 < i) by (destruct (Z.eq_dec i 0) as [E|E];
                                   [rewrite E in A; now contradiction A | lia]).
        repeat split; try assumption.
        eexists. split; [reflexivity|].
        pose proof (skip_range i ltac:(lia)) as K.
        split; [exact K|]. now rewrite subarray_nonneg.
Qed.

(** A pass that loops hands on the same buffer or a shorter one. *)
Lemma scan_body_again_shrinks (data data' : Buffer) :
  Buf.length data < 2 ^ 30 ->
  scan_body data = Again data' ->
  data' = data \/ (List.length data' < List.length data)%nat.
Proof.
  intros Hlen H.
  destruct (scan_body_cases data Hlen) as [[E _]|[(_ & _ & _ & E)|(I & S & _ & skip & _ & K & E)]];
    rewrite E in H; try discriminate.
  injection H as <-.
  destruct (Z.eq_dec skip 0) as [->|Z]; [now left | right].
  rewrite length_skipn. unfold Buf.length, buildInfoSize in *. lia.
Qed.

Lemma scan_loop_mono (fuel : nat) :
  forall (data : Buffer) (r : result Buffer) (fuel' : nat),
    Buf.length data < 2 ^ 30 ->
    scan_loop fuel data = Some r ->
    (List.length data < fuel')%nat ->
    scan_loop fuel' data = Some r.
Proof.
  induction fuel as [|fuel IH]; intros data r fuel' Hlen H L; [discriminate|].
  destruct fuel' as [|fuel']; [lia|]. simpl in H |- *.
  destruct (scan_body data) as [d|d|e] eqn:B; try exact H.
  destruct (scan_body_again_shrinks _ _ Hlen B) as [->|Sh].
  - rewrite (scan_loop_stuck _ B) in H. discriminate.
  - apply (IH d r fuel'); [unfold Buf.length in *; lia | exact H | lia].
Qed.

(** X3. When the scan of [readRawBuildInfo] hands a slice to the decoder,
    that slice is the data region from some offset on, it begins with the
    magic, and it holds at least the 32 bytes of the header. *)
Theorem scan_loop_result (fuel : nat) (data found : Buffer) :
  Buf.length data < 2 ^ 30 ->
  scan_loop fuel data = Some (Ok found) ->
  (exists k, found = skipn k data)
  /\ JsString.startsWith (Buf.toString found) buildInfoMagic = true
  /\ buildInfoSize <= Buf.length found.
Proof.
  revert data; induction fuel as [|fuel IH]; intros data Hlen H; [discriminate|].
  simpl in H.
  destruct (scan_body_cases data Hlen)
    as [[E _]|[(I & S & _ & E)|(I & S & _ & skip & _ & K & E)]];
    rewrite E in H; try discriminate.
  - injection H as <-. split; [eauto|]. split.
    + rewrite toString_skipn.
      apply (indexOf_first (Buf.toString data) buildInfoMagic). lia.
    + unfold Buf.length in *. rewrite length_skipn. lia.
  - destruct (IH (skipn (Z.to_nat skip) data)) as ([k ->] & M & L).
    + unfold Buf.length in *. rewrite length_skipn. lia.
    + exact H.
    + split; [|split; assumption].
      exists (Z.to_nat skip + k)%nat. now rewrite skipn_skipn, Nat.add_comm.
Qed.

Lemma scan_loop_result_witness :
  JsString.startsWith
    (Buf.toString (Fixture.inlineBlob "go1.18.5" Fixture.vetModuleInfo))
    buildInfoMagic = true.
Proof.
  apply (scan_loop_result 1 (Fixture.inlineBlob "go1.18.5" Fixture.vetModuleInfo)
           (Fixture.inlineBlob "go1.18.5" Fixture.vetModuleInfo)).
  - vm_compute. reflexivity.
  - vm_compute. reflexivity.
Defined.

Lemma dataRegion_small (binary : Elf) : Buf.length (dataRegion binary) < 2 ^ 30.
Proof. pose proof (dataRegion_length binary). simpl in *. lia. Qed.

(** X4. Whenever the first match of the magic in the data region is at an
    offset [i] with [i mod 32] between 1 and 15 (every offset from 1 to 15
    is one) and at least 32 bytes follow from the match, [readRawBuildInfo]
    does not terminate: the first pass skips [i - 1] bytes, and from then on
    the match is at offset 1 and every pass skips 0 bytes. *)
Theorem readRawBuildInfo_diverges_on_low_misalignment (binary : Elf) :
  let i := JsString.indexOf (Buf.toString (dataRegion binary)) buildInfoMagic in
  1 <= i mod 32 <= 15 ->
  buildInfoSize <= Buf.length (dataRegion binary) - i ->
  forall fuel, readRawBuildInfo fuel binary = None.
Proof.
  intros i M S fuel. rewrite readRawBuildInfo_dataRegion.
  pose proof (dataRegion_small binary) as Hlen.
  set (data := dataRegion binary) in *.
  assert (I : 0 < i <= Buf.length data).
  { destruct (indexOf_range (Buf.toString data) buildInfoMagic) as [E|E].
    - fold i in E. exfalso. clearbody i. subst i. vm_compute in M.
      destruct M as [_ M]. now apply M.
    - fold i in E. rewrite toString_length in E.
      destruct (Z.eq_dec i 0) as [Z|Z].
      + exfalso. clearbody i. subst i. vm_compute in M.
        destruct M as [M _]. now apply M.
      + unfold Buf.length. lia. }
  assert (A : i mod buildInfoAlign <> 0)
    by (unfold buildInfoAlign; Z.div_mod_to_equations; lia).
  set (data1 := skipn (Z.to_nat (i - 1)) data).
  assert (B0 : scan_body data = Again data1).
  { destruct (scan_body_cases data Hlen)
      as [[_ [E|E]]|[(_ & _ & E & _)|(_ & _ & _ & skip & K & _ & E)]];
      fold i in E; try lia; try (fold i in K).
    rewrite E, K, skip_back by lia. reflexivity. }
  assert (I1 : JsString.indexOf (Buf.toString data1) buildInfoMagic = 1).
  { unfold data1. rewrite toString_skipn, indexOf_drop; fold i; lia. }
  assert (L1 : Buf.length data1 = Buf.length data - (i - 1)).
  { unfold data1, Buf.length in *. rewrite length_skipn. lia. }
  assert (B1 : scan_body data1 = Again data1).
  { destruct (scan_body_cases data1 ltac:(lia))
      as [[_ [E|E]]|[(_ & _ & E & _)|(_ & _ & _ & skip & K & _ & E)]];
      rewrite I1 in *; unfold buildInfoSize, buildInfoAlign in *; try lia;
      try discriminate.
    rewrite E, K. reflexivity. }
  destruct fuel as [|fuel]; [reflexivity|].
  rewrite (scan_loop_again _ _ _ B0), (scan_loop_stuck _ B1). reflexivity.
Qed.

Lemma readRawBuildInfo_diverges_on_low_misalignment_witness :
  readRawBuildInfo 5 Fixture.misalignedElf = None.
Proof.
  apply (readRawBuildInfo_diverges_on_low_misalignment Fixture.misalignedElf).
  - vm_compute. split; discriminate.
  - vm_compute. discriminate.
Defined.

(** X5. The scan of [readRawBuildInfo] either never ends or ends within
    one pass more than the data region has bytes, so 65537 passes decide
    every image: whatever any number of passes answers, 65537 passes answer
    too. *)
Theorem readRawBuildInfo_fuel_bound (fuel : nat) (binary : Elf) (r : result string) :
  readRawBuildInfo fuel binary = Some r ->
  readRawBuildInfo scanFuel binary = Some r.
Proof.
  rewrite !readRawBuildInfo_dataRegion.
  destruct (scan_loop fuel (dataRegion binary)) as [s|] eqn:E; [|discriminate].
  rewrite (scan_loop_mono fuel (dataRegion binary) s scanFuel
             (dataRegion_small binary) E).
  - trivial.
  - pose proof (dataRegion_length binary) as L. unfold Buf.length, scanFuel in *. lia.
Qed.

Lemma readRawBuildInfo_fuel_bound_witness :
  readRawBuildInfo scanFuel Fixture.vetElf = Some (Ok Fixture.vetModuleInfo).
Proof.
  apply (readRawBuildInfo_fuel_bound 1). vm_compute. reflexivity.
Defined.

(** X6. A data region that is shorter than 32 bytes, or in which the magic
    does not occur, makes [readRawBuildInfo] throw "not a Go executable" in
    its first pass; an image without segments is such a case. *)
Theorem readRawBuildInfo_not_go_executable (fuel : nat) (binary : Elf) :
  Buf.length (dataRegion binary) < buildInfoSize
  \/ JsString.includes (Buf.toString (dataRegion binary)) buildInfoMagic = false
  \/ programs binary = [] ->
  readRawBuildInfo (S fuel) binary = Some (Throw NotGoExecutable).
Proof.
  intros H. rewrite readRawBuildInfo_dataRegion.
  assert (H' : Buf.length (dataRegion binary) < buildInfoSize
               \/ JsString.includes (Buf.toString (dataRegion binary)) buildInfoMagic
                  = false).
  { destruct H as [H|[H|H]]; auto.
    left. unfold dataRegion. rewrite H. reflexivity. }
  clear H. cbn [scan_loop].
  destruct (scan_body_cases (dataRegion binary) (dataRegion_small binary))
    as [[E _]|[(I & S & _)|(I & S & _)]].
  - now rewrite E.
  - exfalso. destruct H' as [H|H]; [lia|].
    unfold JsString.includes in H. apply Z.leb_gt in H. lia.
  - exfalso. destruct H' as [H|H]; [lia|].
    unfold JsString.includes in H. apply Z.leb_gt in H. lia.
Qed.

Lemma readRawBuildInfo_not_go_executable_witness :
  readRawBuildInfo 1 Fixture.emptyElf = Some (Throw NotGoExecutable).
Proof.
  apply (readRawBuildInfo_not_go_executable 0 Fixture.emptyElf).
  right. right. reflexivity.
Defined.

(** X7. When the first match of the magic in the data region is at an
    offset that is a multiple of 16 and at least 32 bytes follow from it,
    the scan ends in its first pass and [readRawBuildInfo] answers what the
    decoder makes of the region from that offset on. *)
Theorem readRawBuildInfo_aligned (fuel : nat) (binary : Elf) :
  let i := JsString.indexOf (Buf.toString (dataRegion binary)) buildInfoMagic in
  0 <= i -> i mod buildInfoAlign = 0 ->
  buildInfoSize <= Buf.length (dataRegion binary) - i ->
  readRawBuildInfo (S fuel) binary =
    Some (decodeBuildInfo binary (skipn (Z.to_nat i) (dataRegion binary))).
Proof.
  intros i I A S. rewrite readRawBuildInfo_dataRegion. cbn [scan_loop].
  destruct (scan_body_cases (dataRegion binary) (dataRegion_small binary))
    as [[_ [E|E]]|[(_ & _ & _ & E)|(_ & _ & E & _)]]; fold i in E; try lia.
  now rewrite E.
Qed.

Lemma readRawBuildInfo_aligned_witness :
  readRawBuildInfo 1 Fixture.vetElf =
    Some (decodeBuildInfo Fixture.vetElf (dataRegion Fixture.vetElf)).
Proof.
  apply (readRawBuildInfo_aligned 0 Fixture.vetElf).
  - vm_compute. discriminate.
  - vm_compute. reflexivity.
  - vm_compute. discriminate.
Defined.

(** ** Inline-string mode *)

Lemma skipn_length_app {A} (l l' : list A) : skipn (List.length l) (l ++ l') = l'.
Proof. induction l; simpl; auto. Qed.

Lemma firstn_length_app {A} (l l' : list A) : firstn (List.length l) (l ++ l') = l.
Proof. induction l; simpl; [reflexivity | now f_equal]. Qed.

Lemma list_byte_of_string_length (s : string) :
  List.length (list_byte_of_string s) = String.length s.
Proof. now rewrite <- toString_length, toString_of_string. Qed.

(** A length below 128 is one varint byte. *)
Lemma varint_decode_one_byte (b : byte) (rest : Buffer) :
  byte_val b < 128 -> Varint.decode (b :: rest) = Ok (byte_val b, 1).
Proof.
  intros H. pose proof (byte_val_range b) as R.
  unfold Varint.decode. cbn [Varint.read].
  change (49 <? 0) with false. change (0 <? 28) with true. cbv iota.
  rewrite js_and_rest by assumption.
  rewrite (Z.mod_small (byte_val b) 128) by lia.
  unfold js_shl. change (0 mod 32) with 0. rewrite Z.shiftl_0_r.
  rewrite !to_int32_small by (rewrite ?to_int32_small; lia).
  rewrite round_to_double_small by lia.
  destruct (Z.leb_spec Varint.MSB (byte_val b)); [unfold Varint.MSB in *; lia|].
  reflexivity.
Qed.

Lemma varintString_shape (s : string) :
  (String.length s < 128)%nat ->
  exists b, Fixture.varintString s = b :: list_byte_of_string s
            /\ byte_val b = Z.of_nat (String.length s).
Proof.
  intros H. unfold Fixture.varintString.
  destruct (Byte.of_N (N.of_nat (String.length s))) as [b|] eqn:E.
  - exists b. split; [reflexivity|]. unfold byte_val.
    rewrite (Byte.to_of_N _ E). lia.
  - apply Byte.of_N_None_iff in E. lia.
Qed.

Lemma decodeString_varintString (s : string) (rest : Buffer) :
  (String.length s < 128)%nat -> rest <> [] ->
  decodeString (Fixture.varintString s ++ rest) = Ok (s, rest).
Proof.
  intros H Hrest. destruct (varintString_shape s H) as (b & -> & V).
  assert (D : Varint.decode ((b :: list_byte_of_string s) ++ rest)
              = Ok (byte_val b, 1)) by (apply varint_decode_one_byte; lia).
  assert (Lr : (0 < List.length rest)%nat) by (destruct rest; [congruence | simpl; lia]).
  rewrite (decodeString_fits _ _ _ D).
  - replace (Z.to_nat (byte_val b + 1)) with (S (String.length s)) by lia.
    replace (Z.to_nat (byte_val b)) with (String.length s) by lia.
    change (Z.to_nat 1) with 1%nat. cbn [app skipn].
    rewrite <- (list_byte_of_string_length s).
    now rewrite firstn_length_app, skipn_length_app, toString_of_string.
  - unfold Buf.length. cbn [app List.length].
    rewrite length_app, list_byte_of_string_length. lia.
Qed.

(** X8. A string of fewer than 128 characters, written as its length byte
    and its characters and followed by at least one more byte, is decoded by
    [decodeString] to the string itself and the bytes after it. *)
Theorem decodeString_round_trip (s : string) (rest : Buffer) :
  (String.length s < 128)%nat -> rest <> [] ->
  decodeString (Fixture.varintString s ++ rest) = Ok (s, rest).
Proof. apply decodeString_varintString. Qed.

Lemma decodeString_round_trip_witness :
  decodeString (Fixture.varintString "go1.18.5" ++ [x00]) = Ok ("go1.18.5", [x00]).
Proof.
  apply decodeString_round_trip.
  - simpl. lia.
  - discriminate.
Defined.

Lemma indexOf_at_start (s needle : string) :
  JsString.startsWith s needle = true -> JsString.indexOf s needle = 0.
Proof.
  intros H. destruct s; [rewrite indexOf_nil | rewrite indexOf_cons]; now rewrite H.
Qed.

Lemma magic_bytes :
  list_byte_of_string buildInfoMagic =
  [xff; x20; x47; x6f; x20; x62; x75; x69; x6c; x64; x69; x6e; x66; x3a].
Proof. reflexivity. Qed.

(** X9. When the data region is a header in inline-string mode (the magic,
    any pointer-size byte, a flags byte with bit 1 set, 16 more bytes)
    followed by the Go version and the module info as length-prefixed
    strings of fewer than 128 characters and by at least one more byte,
    [readRawBuildInfo] answers the module info in its first pass. *)
Theorem readRawBuildInfo_inline (fuel : nat) (binary : Elf) (ptrSize flags : byte)
  (pad rest : Buffer) (goVersion mod_ : string) :
  dataRegion binary =
    list_byte_of_string buildInfoMagic ++ [ptrSize; flags] ++ pad
    ++ Fixture.varintString goVersion ++ Fixture.varintString mod_ ++ rest ->
  List.length pad = 16%nat ->
  js_and (byte_val flags) 2 <> 0 ->
  (String.length goVersion < 128)%nat ->
  (String.length mod_ < 128)%nat ->
  rest <> [] ->
  readRawBuildInfo (S fuel) binary = Some (Ok mod_).
Proof.
  intros Hdata Hpad Hflags Hv Hm Hrest.
  rewrite readRawBuildInfo_dataRegion.
  pose proof (dataRegion_small binary) as Hsmall.
  set (tail := Fixture.varintString goVersion ++ Fixture.varintString mod_ ++ rest) in *.
  assert (I : JsString.indexOf (Buf.toString (dataRegion binary)) buildInfoMagic = 0).
  { apply indexOf_at_start. rewrite Hdata, toString_app, toString_of_string.
    apply startsWith_app. }
  assert (L : Buf.length (dataRegion binary) = 32 + Buf.length tail).
  { rewrite Hdata, magic_bytes. unfold Buf.length.
    cbn [app List.length]. rewrite length_app, Hpad. lia. }
  assert (T : 0 <= Buf.length tail) by (unfold Buf.length; lia).
  cbn [scan_loop].
  destruct (scan_body_cases (dataRegion binary) Hsmall)
    as [[_ [E|E]]|[(_ & _ & _ & E)|(E & _)]];
    rewrite I in *; unfold buildInfoSize in *; try lia.
  rewrite E. change (Z.to_nat 0) with 0%nat. cbn [skipn]. f_equal.
  unfold decodeBuildInfo.
  assert (G15 : Buf.get (dataRegion binary) 15 = byte_val flags)
    by (rewrite Hdata, magic_bytes; reflexivity).
  rewrite G15.
  destruct (Z.eqb_spec (js_and (byte_val flags) 2) 0) as [Z|_]; [contradiction|].
  cbn [negb].
  assert (S32 : Buf.subarray (dataRegion binary) 32 = tail).
  { rewrite subarray_nonneg by lia. rewrite Hdata, !app_assoc.
    replace (Z.to_nat 32)
      with (List.length ((list_byte_of_string buildInfoMagic ++ [ptrSize; flags]) ++ pad)).
    - apply skipn_length_app.
    - rewrite magic_bytes, length_app, Hpad. reflexivity. }
  rewrite S32. unfold tail.
  rewrite decodeString_varintString; [|assumption|].
  - cbn [bind snd]. rewrite decodeString_varintString by assumption. reflexivity.
  - destruct (varintString_shape mod_ Hm) as (b & -> & _). discriminate.
Qed.

Lemma readRawBuildInfo_inline_witness :
  readRawBuildInfo 1 Fixture.vetElf = Some (Ok Fixture.vetModuleInfo).
Proof.
  apply (readRawBuildInfo_inline 0 Fixture.vetElf x08 x02 (repeat x00 16) [x00]
           "go1.18.5" Fixture.vetModuleInfo).
  - vm_compute. reflexivity.
  - reflexivity.
  - vm_compute. discriminate.
  - simpl. lia.
  - vm_compute. lia.
  - discriminate.
Defined.

(** ** Pointer mode *)

Lemma get_includes (s : string) (i : nat) (c : ascii) :
  String.get i s = Some c -> JsString.includes s (String c "") = true.
Proof.
  revert i; induction s as [|d s IH]; intros i H; [destruct i; discriminate|].
  rewrite includes_char_cons. destruct i as [|i]; simpl in H.
  - injection H as ->. now rewrite Ascii.eqb_refl.
  - rewrite (IH i H). apply orb_true_r.
Qed.

(** The module info that passes the check of pointer mode has a newline. *)
Lemma stripped_module_info_has_newline (mod_ : string) :
  (33 <=? String.length mod_)%nat && newline_before_suffix mod_ = true ->
  JsString.includes (JsString.slice mod_ 16 (String.length mod_ - 16)) LF = true.
Proof.
  intros H. apply andb_true_iff in H as [L N].
  apply Nat.leb_le in L. unfold newline_before_suffix in N.
  destruct (String.get (String.length mod_ - 17) mod_) as [c|] eqn:G; [|discriminate].
  apply Ascii.eqb_eq in N. subst c.
  apply (get_includes _ (String.length mod_ - 33)). unfold JsString.slice.
  rewrite substring_correct1 by lia.
  now replace (String.length mod_ - 33 + 16)%nat with (String.length mod_ - 17)%nat by lia.
Qed.

Lemma decodeBuildInfo_pointer_newline (binary : Elf) (data : Buffer) (mod_ : string) :
  js_and (Buf.get data 15) 2 = 0 ->
  decodeBuildInfo binary data = Ok mod_ ->
  JsString.includes mod_ LF = true.
Proof.
  intros Hmode H. unfold decodeBuildInfo in H. rewrite Hmode in H.
  cbn [Z.eqb negb] in H.
  destruct (readPtr_of_header _ _ (Buf.slice data 16 _)) as [versionAddr|e];
    [|discriminate]. cbn [bind] in H.
  destruct (readString binary _ _ versionAddr) as [version|e]; [|discriminate].
  cbn [bind] in H.
  destruct (String.eqb version ""); [discriminate|].
  destruct (readPtr_of_header _ _ (Buf.slice data (16 + _) _)) as [modAddr|e];
    [|discriminate]. cbn [bind] in H.
  destruct (readString binary _ _ modAddr) as [m|e]; [|discriminate].
  cbn [bind] in H.
  destruct ((33 <=? String.length m)%nat && newline_before_suffix m) eqn:C;
    [|discriminate].
  injection H as <-. now apply stripped_module_info_has_newline.
Qed.

(** X10. In pointer mode the module info [readRawBuildInfo] answers always
    holds a newline, so [extractModuleInformation] parses it to a name and a
    module list: the type error of a module info without a second line
    cannot come from a header in pointer mode. *)
Theorem extractModuleInformation_pointer_mode
  (fuel : nat) (binary : Elf) (data : Buffer) (mod_ : string) :
  scan_loop fuel (dataRegion binary) = Some (Ok data) ->
  js_and (Buf.get data 15) 2 = 0 ->
  decodeBuildInfo binary data = Ok mod_ ->
  JsString.includes mod_ LF = true
  /\ exists binaryName modules,
       extractModuleInformation fuel binary = Some (Ok (binaryName, modules)).
Proof.
  intros Hscan Hmode Hdec.
  pose proof (decodeBuildInfo_pointer_newline _ _ _ Hmode Hdec) as N.
  split; [exact N|].
  unfold extractModuleInformation. rewrite readRawBuildInfo_dataRegion, Hscan, Hdec.
  destruct (String.eqb_spec mod_ "") as [->|_]; [discriminate N|].
  destruct (split_LF_present _ N) as (p & m & vs & E).
  destruct (parseModuleInfo_two_lines _ _ _ _ E) as [name ->]. eauto.
Qed.

Example pointer_mode_fixture :
  readRawBuildInfo 1 PointerFixture.elf = Some (Ok PointerFixture.moduleInfo)
  /\ extractModuleInformation 1 PointerFixture.elf =
       Some (Ok (Some "example.com/a", [newGoModule "example.com/b" "v2.1.0"])).
Proof. split; vm_compute; reflexivity. Qed.

Lemma extractModuleInformation_pointer_mode_witness :
  JsString.includes PointerFixture.moduleInfo LF = true
  /\ exists binaryName modules,
       extractModuleInformation 1 PointerFixture.elf = Some (Ok (binaryName, modules)).
Proof.
  apply (extractModuleInformation_pointer_mode 1 PointerFixture.elf
           (dataRegion PointerFixture.elf) PointerFixture.moduleInfo).
  - vm_compute. reflexivity.
  - vm_compute. reflexivity.
  - vm_compute. reflexivity.
Defined.

Lemma readString_uncovered (binaryFile : Elf) (ptrSize : Z) (readPtr : ReadPtrFunc)
  (addr : Z) :
  readData (programs binaryFile) addr (2 * ptrSize) = None ->
  readString binaryFile ptrSize readPtr addr = Ok "".
Proof. intros H. unfold readString. now rewrite H. Qed.

(** X11. In pointer mode, when no segment covers the address the header
    gives for the Go version, [readRawBuildInfo]'s decoder throws "no version
    found in go binary"; when the version is read and not empty but no
    segment covers the address given for the module info, it throws "binary
    is not built with go module support". *)
Theorem decodeBuildInfo_uncovered_addresses (binary : Elf) (data : Buffer)
  (versionAddr : Z) :
  let ptrSize := Buf.get data 14 in
  let readPtr := readPtr_of_header ptrSize (Buf.get data 15) in
  js_and (Buf.get data 15) 2 = 0 ->
  readPtr (Buf.slice data 16 (16 + ptrSize)) = Ok versionAddr ->
  (readData (programs binary) versionAddr (2 * ptrSize) = None ->
   decodeBuildInfo binary data = Throw NoVersion)
  /\ (forall version modAddr,
        readString binary ptrSize readPtr versionAddr = Ok version ->
        version <> "" ->
        readPtr (Buf.slice data (16 + ptrSize) (16 + 2 * ptrSize)) = Ok modAddr ->
        readData (programs binary) modAddr (2 * ptrSize) = None ->
        decodeBuildInfo binary data = Throw NoModuleSupport).
Proof.
  intros ptrSize readPtr Hmode Hva. split.
  - intros Hnone. unfold decodeBuildInfo. rewrite Hmode. cbn [Z.eqb negb].
    fold ptrSize. fold readPtr. rewrite Hva. cbn [bind].
    rewrite readString_uncovered by assumption. reflexivity.
  - intros version modAddr Hv Hne Hma Hnone.
    unfold decodeBuildInfo. rewrite Hmode. cbn [Z.eqb negb].
    fold ptrSize. fold readPtr. rewrite Hva. cbn [bind]. rewrite Hv. cbn [bind].
    destruct (String.eqb_spec version "") as [E|_]; [contradiction|].
    rewrite Hma. cbn [bind]. rewrite readString_uncovered by assumption.
    reflexivity.
Qed.

Lemma be_value_nonneg (bs : list byte) : 0 <= Buf.be_value bs.
Proof.
  unfold Buf.be_value.
  assert (G : forall acc, 0 <= acc ->
            0 <= fold_left (fun a b => a * 256 + byte_val b) bs acc).
  { induction bs as [|b bs IH]; intros acc H; simpl; [exact H|].
    apply IH. pose proof (byte_val_range b). lia. }
  apply G. lia.
Qed.

Lemma select_readPtr_nonneg (ptrSize : Z) (bigEndian : bool) (buf : Buffer) (v : Z) :
  select_readPtr ptrSize bigEndian buf = Ok v -> 0 <= v.
Proof.
  rewrite select_readPtr_unsigned. unfold read_unsigned.
  destruct (_ <? _)%nat; [discriminate|].
  intros H. injection H as <-. apply round_to_double_nonneg, be_value_nonneg.
Qed.

(** X12. With one of the four readers of the decoder, [readString] answers
    either the empty string or exactly as many characters as the length field
    of the string header says: a read that comes back shorter gives the
    empty string, never a truncated one. *)
Theorem readString_exact_length (binaryFile : Elf) (ptrSize : Z) (bigEndian : bool)
  (addr : Z) (s : string) :
  readString binaryFile ptrSize (select_readPtr ptrSize bigEndian) addr = Ok s ->
  s = ""
  \/ exists hdr dataAddr dataLen,
       readData (programs binaryFile) addr (2 * ptrSize) = Some hdr
       /\ select_readPtr ptrSize bigEndian hdr = Ok dataAddr
       /\ select_readPtr ptrSize bigEndian (Buf.subarray hdr ptrSize) = Ok dataLen
       /\ Z.of_nat (String.length s) = dataLen.
Proof.
  unfold readString.
  destruct (readData (programs binaryFile) addr (2 * ptrSize)) as [hdr|];
    [|intros H; injection H as <-; now left].
  destruct (_ <? _); [intros H; injection H as <-; now left|].
  destruct (select_readPtr ptrSize bigEndian hdr) as [dataAddr|e] eqn:A; [|discriminate].
  cbn [bind].
  destruct (select_readPtr ptrSize bigEndian (Buf.subarray hdr ptrSize))
    as [dataLen|e] eqn:L; [|discriminate].
  cbn [bind].
  destruct (readData (programs binaryFile) dataAddr dataLen) as [data|] eqn:D;
    [|intros H; injection H as <-; now left].
  destruct (Z.ltb_spec (Buf.length data) dataLen) as [Sh|Sh];
    intros R; injection R as <-; [now left|].
  right. exists hdr, dataAddr, dataLen.
  split; [reflexivity|]. split; [exact A|]. split; [exact L|].
  rewrite toString_length.
  apply readData_length_le in D; [|eapply select_readPtr_nonneg; eassumption].
  unfold Buf.length in *. lia.
Qed.

Lemma decodeBuildInfo_uncovered_addresses_witness :
  decodeBuildInfo danglingElf danglingHeader = Throw NoVersion.
Proof.
  destruct (decodeBuildInfo_uncovered_addresses danglingElf danglingHeader 0) as [H _].
  - vm_compute. reflexivity.
  - vm_compute. reflexivity.
  - apply H. vm_compute. reflexivity.
Defined.

Example danglingElf_no_version :
  readRawBuildInfo 1 danglingElf = Some (Throw NoVersion).
Proof. vm_compute. reflexivity. Qed.

Lemma readString_exact_length_witness :
  "go1.18.5" = ""
  \/ exists hdr dataAddr dataLen,
       readData (programs PointerFixture.elf) 4128 (2 * 8) = Some hdr
       /\ select_readPtr 8 false hdr = Ok dataAddr
       /\ select_readPtr 8 false (Buf.subarray hdr 8) = Ok dataLen
       /\ Z.of_nat (String.length "go1.18.5") = dataLen.
Proof.
  apply (readString_exact_length PointerFixture.elf 8 false 4128 "go1.18.5").
  vm_compute. reflexivity.
Defined.

(** ** Module info, line by line *)

Lemma append_assoc (a b c : string) : ((a ++ b) ++ c = a ++ b ++ c)%string.
Proof. induction a as [|x a IH]; simpl; [reflexivity | now rewrite IH]. Qed.

Lemma append_nil_r (a : string) : (a ++ "")%string = a.
Proof. induction a as [|x a IH]; simpl; [reflexivity | now rewrite IH]. Qed.

Lemma includes_char_app (c : ascii) (a b : string) :
  JsString.includes (a ++ b) (String c "") =
  JsString.includes a (String c "") || JsString.includes b (String c "").
Proof.
  induction a as [|x a IH]; simpl append.
  - now rewrite includes_char_nil.
  - now rewrite !includes_char_cons, IH, orb_assoc.
Qed.

Lemma split_go_app_absent (c : ascii) (l rest cur : string) :
  JsString.includes l (String c "") = false ->
  JsString.split_go (String c "") (l ++ rest) O cur =
  JsString.split_go (String c "") rest O (cur ++ l).
Proof.
  revert cur; induction l as [|d l IH]; intros cur H; simpl append.
  - now rewrite append_nil_r.
  - rewrite includes_char_cons in H. apply orb_false_iff in H as [Hd Hl].
    rewrite split_go_char_cons, Hd, IH by assumption.
    now rewrite append_assoc.
Qed.

(** Splitting what was joined with a character gives the pieces back, when
    the character is in none of them. *)
Lemma split_concat_char (c : ascii) (pieces : list string) :
  pieces <> [] ->
  Forall (fun p => JsString.includes p (String c "") = false) pieces ->
  JsString.split (String.concat (String c "") pieces) (String c "") = pieces.
Proof.
  unfold JsString.split.
  induction pieces as [|p [|q ps] IH]; intros Hne H; [congruence| |].
  - inversion H; subst. simpl String.concat. now rewrite split_go_absent.
  - inversion H as [|? ? Hp Hrest]; subst.
    change (String.concat (String c "") (p :: q :: ps))
      with (p ++ String c "" ++ String.concat (String c "") (q :: ps))%string.
    rewrite split_go_app_absent by assumption. simpl append.
    rewrite split_go_char_cons, Ascii.eqb_refl. f_equal.
    apply IH; [discriminate | assumption].
Qed.

Lemma includes_concat_char (c d : ascii) (pieces : list string) :
  Ascii.eqb d c = false ->
  Forall (fun p => JsString.includes p (String c "") = false) pieces ->
  JsString.includes (String.concat (String d "") pieces) (String c "") = false.
Proof.
  intros Hd. induction pieces as [|p [|q ps] IH]; intros H; [reflexivity| |].
  - now inversion H.
  - inversion H as [|? ? Hp Hrest]; subst.
    change (String.concat (String d "") (p :: q :: ps))
      with (p ++ String d "" ++ String.concat (String d "") (q :: ps))%string.
    rewrite includes_char_app, Hp. simpl append.
    rewrite includes_char_cons, Hd. now apply IH.
Qed.

Lemma clean_literal_dep : clean "dep".
Proof. split; reflexivity. Qed.

Lemma module_of_depLine (d : Dep) :
  clean_dep d -> module_of_line (depLine d) = Some (newGoModule (dep_name d) (dep_version d)).
Proof.
  intros (Cn & Cv & Ch & Nn & Nv). unfold module_of_line, depLine, TAB.
  rewrite split_concat_char.
  - cbn [at_index nth_error].
    destruct (String.eqb_spec (dep_name d) ""); [contradiction|].
    destruct (String.eqb_spec (dep_version d) ""); [contradiction|]. reflexivity.
  - discriminate.
  - repeat constructor; try apply Cn; try apply Cv; try apply Ch.
Qed.

Lemma modules_of_depLines (deps : list Dep) :
  Forall clean_dep deps ->
  modules_of_lines (map depLine deps ++ [""]) =
  map (fun d => newGoModule (dep_name d) (dep_version d)) deps.
Proof.
  unfold modules_of_lines. induction 1 as [|d ds Hd _ IH]; [reflexivity|].
  cbn [map app flat_map]. rewrite module_of_depLine by assumption.
  cbn [app]. f_equal. exact IH.
Qed.

Lemma depLine_no_LF (d : Dep) : clean_dep d -> JsString.includes (depLine d) LF = false.
Proof.
  intros (Cn & Cv & Ch & _). unfold depLine, TAB, LF.
  apply includes_concat_char; [reflexivity|].
  repeat constructor; try apply Cn; try apply Cv; try apply Ch.
Qed.

(** X13. The text of a module info with a [mod] line is read back by
    [extractModuleInformation]: the binary is named after the main module,
    and the modules are the dependencies of the [dep] lines, in their order,
    each without packages.  The fields must hold no tab and no newline, and
    the names and versions of the dependencies must not be empty. *)
Theorem extractModuleInformation_round_trip
  (fuel : nat) (binary : Elf) (path mainName mainVersion : string) (deps : list Dep) :
  readRawBuildInfo fuel binary = Some (Ok (moduleInfoText path mainName mainVersion deps)) ->
  clean path -> clean mainName -> clean mainVersion ->
  Forall clean_dep deps ->
  extractModuleInformation fuel binary =
    Some (Ok (Some mainName,
              map (fun d => newGoModule (dep_name d) (dep_version d)) deps)).
Proof.
  intros Hraw Cp Cm Cv Cd.
  unfold extractModuleInformation. rewrite Hraw.
  assert (S : JsString.split (moduleInfoText path mainName mainVersion deps) LF =
              String.concat TAB ["path"; path]
              :: String.concat TAB ["mod"; mainName; mainVersion]
              :: map depLine deps ++ [""]).
  { unfold moduleInfoText, LF. apply split_concat_char; [discriminate|].
    constructor; [|constructor].
    - apply includes_concat_char; [reflexivity|].
      repeat constructor. apply Cp.
    - apply includes_concat_char; [reflexivity|].
      repeat constructor; [apply Cm | apply Cv].
    - apply Forall_app. split; [|repeat constructor].
      apply Forall_map. eapply Forall_impl; [|exact Cd].
      intros d Hd. now apply depLine_no_LF. }
  destruct (String.eqb_spec (moduleInfoText path mainName mainVersion deps) "") as [E|_].
  { rewrite E in S. discriminate S. }
  unfold parseModuleInfo. rewrite S.
  replace (JsString.split (String.concat TAB ["mod"; mainName; mainVersion]) TAB)
    with ["mod"; mainName; mainVersion].
  - cbn [at_index nth_error]. rewrite String.eqb_refl.
    now rewrite modules_of_depLines.
  - symmetry. unfold TAB. apply split_concat_char; [discriminate|].
    repeat constructor; [apply Cm | apply Cv].
Qed.

Lemma extractModuleInformation_round_trip_witness :
  extractModuleInformation 1 roundTripElf =
    Some (Ok (Some "example.com/a",
              [newGoModule "example.com/b" "v2.1.0"; newGoModule "example.com/c" "v0.3.0"])).
Proof.
  apply (extractModuleInformation_round_trip 1 roundTripElf "cmd/x" "example.com/a" "v1.0.0"
           [mkDep "example.com/b" "v2.1.0" "h1:def="; mkDep "example.com/c" "v0.3.0" "h1:ghi="]).
  - vm_compute. reflexivity.
  - split; reflexivity.
  - split; reflexivity.
  - split; reflexivity.
  - repeat constructor; discriminate.
Defined.

(** The pieces of a split hold no separator, and no other character that
    the string does not hold. *)
Lemma split_go_pieces (c d : ascii) (s : string) :
  forall cur p,
    In p (JsString.split_go (String c "") s O cur) ->
    (JsString.includes cur (String c "") = false ->
     JsString.includes p (String c "") = false)
    /\ (JsString.includes cur (String d "") = false ->
        JsString.includes s (String d "") = false ->
        JsString.includes p (String d "") = false).
Proof.
  induction s as [|x s IH]; intros cur p Hp.
  - destruct Hp as [<-|[]]. auto.
  - rewrite split_go_char_cons in Hp. destruct (Ascii.eqb x c) eqn:X.
    + destruct Hp as [<-|Hp]; [auto|].
      destruct (IH "" p Hp) as [A B]. split; [auto|].
      intros _ Hs. rewrite includes_char_cons in Hs.
      apply orb_false_iff in Hs as [_ Hs]. now apply B.
    + destruct (IH _ p Hp) as [A B]. split.
      * intros Hc. apply A. rewrite includes_char_app, Hc, includes_char_cons, X.
        reflexivity.
      * intros Hc Hs. rewrite includes_char_cons in Hs.
        apply orb_false_iff in Hs as [Hx Hs]. apply B; [|assumption].
        rewrite includes_char_app, Hc, includes_char_cons, Hx. reflexivity.
Qed.

Lemma split_pieces_clean (line field : string) :
  JsString.includes line LF = false ->
  In field (JsString.split line TAB) -> clean field.
Proof.
  intros Hl Hf. unfold JsString.split, TAB in Hf.
  destruct (split_go_pieces _ (ascii_of_nat 10) _ _ _ Hf) as [A B].
  split; [now apply A | now apply B].
Qed.

Lemma module_of_line_well_formed (line : string) (m : GoModule) :
  JsString.includes line LF = false ->
  module_of_line line = Some m -> well_formed_module m.
Proof.
  intros Hl. unfold module_of_line.
  destruct (at_index (JsString.split line TAB) 1) as [n|] eqn:N; [|discriminate].
  destruct (at_index (JsString.split line TAB) 2) as [v|] eqn:V; [|discriminate].
  destruct (String.eqb_spec n ""); [discriminate|].
  destruct (String.eqb_spec v ""); [discriminate|]. cbn [orb].
  intros H. injection H as <-. unfold well_formed_module, newGoModule.
  cbn [name version packages].
  apply nth_error_In in N, V.
  repeat split; try assumption;
    try apply (split_pieces_clean line n Hl N);
    try apply (split_pieces_clean line v Hl V).
Qed.

(** X14. Every module [extractModuleInformation] answers has a name and a
    version that are not empty and hold neither a tab nor a newline, and it
    has no packages yet. *)
Theorem extractModuleInformation_modules_well_formed
  (fuel : nat) (binary : Elf) (binaryName : option string) (modules : list GoModule) :
  extractModuleInformation fuel binary = Some (Ok (binaryName, modules)) ->
  Forall well_formed_module modules.
Proof.
  unfold extractModuleInformation.
  destruct (readRawBuildInfo fuel binary) as [[mod_|e]|]; try discriminate.
  destruct (String.eqb mod_ ""); [discriminate|].
  unfold parseModuleInfo.
  destruct (JsString.split mod_ LF) as [|p [|m vs]] eqn:S; try discriminate.
  intros H. injection H as _ <-.
  unfold modules_of_lines. apply Forall_forall. intros x Hx.
  apply in_flat_map in Hx as (line & Hline & Hx).
  destruct (module_of_line line) as [y|] eqn:M; [|destruct Hx].
  destruct Hx as [<-|[]].
  apply (module_of_line_well_formed line); [|exact M].
  assert (Hin : In line (JsString.split mod_ LF))
    by (rewrite S; right; right; exact Hline).
  unfold JsString.split, LF in Hin.
  destruct (split_go_pieces _ (ascii_of_nat 10) _ _ _ Hin) as [A _].
  apply A. reflexivity.
Qed.

Lemma extractModuleInformation_modules_well_formed_witness :
  Forall well_formed_module
    [newGoModule "example.com/b" "v2.1.0"; newGoModule "example.com/c" "v0.3.0"].
Proof.
  apply (extractModuleInformation_modules_well_formed 1 roundTripElf (Some "example.com/a")).
  vm_compute. reflexivity.
Defined.

(** ** Splitting on a string *)

Lemma startsWith_nil_l (p : string) : p <> "" -> JsString.startsWith "" p = false.
Proof. destruct p; [congruence | reflexivity]. Qed.

Lemma includes_nil_l (p : string) : p <> "" -> JsString.includes "" p = false.
Proof. destruct p; [congruence | reflexivity]. Qed.

(** [includes] says that the needle stands somewhere in the string. *)
Lemma includes_spec (s needle : string) :
  JsString.includes s needle = true <-> exists a b, s = (a ++ needle ++ b)%string.
Proof.
  split.
  - induction s as [|c s IH]; intros H.
    + unfold JsString.includes in H. rewrite indexOf_nil in H.
      destruct (JsString.startsWith "" needle) eqn:E; [|discriminate].
      apply startsWith_inv in E as [r E]. now exists "", r.
    + rewrite includes_cons in H.
      destruct (JsString.startsWith (String c s) needle) eqn:E.
      * apply startsWith_inv in E as [r E]. now exists "", r.
      * destruct (IH H) as (a & b & ->). now exists (String c a), b.
  - intros (a & b & ->). induction a as [|c a IH]; simpl append.
    + unfold JsString.includes. rewrite indexOf_at_start; [reflexivity|].
      apply startsWith_app.
    + rewrite includes_cons, IH. apply orb_true_r.
Qed.

Lemma split_go_skip (sep pre rest cur : string) :
  JsString.split_go sep (pre ++ rest) (String.length pre) cur =
  JsString.split_go sep rest O cur.
Proof. induction pre as [|c pre IH]; simpl; [now destruct rest | exact IH]. Qed.

Lemma split_go_nonempty (sep s : string) :
  forall skip cur, JsString.split_go sep s skip cur <> [].
Proof.
  induction s as [|c s IH]; intros [|skip] cur;
    cbn [JsString.split_go]; try discriminate.
  - destruct (JsString.startsWith (String c s) sep); [discriminate | apply IH].
  - apply IH.
Qed.

Lemma split_go_cons (sep : string) (c : ascii) (s cur : string) :
  JsString.split_go sep (String c s) O cur =
  if JsString.startsWith (String c s) sep
  then cur :: JsString.split_go sep s (Nat.pred (String.length sep)) ""
  else JsString.split_go sep s O (cur ++ String c "")%string.
Proof. reflexivity. Qed.

(** Splitting on a separator that does not occur gives one piece. *)
Lemma split_go_absent_gen (sep s cur : string) :
  sep <> "" -> JsString.includes s sep = false ->
  JsString.split_go sep s O cur = [(cur ++ s)%string].
Proof.
  intros Hsep. revert cur; induction s as [|c s IH]; intros cur H.
  - simpl. now rewrite append_nil_r.
  - rewrite includes_cons in H. apply orb_false_iff in H as [H1 H2].
    rewrite split_go_cons, H1, IH by assumption. now rewrite append_assoc.
Qed.

(** Splitting on a separator that occurs gives at least two pieces, and
    the first piece is what stands before the first occurrence. *)
Lemma split_go_present_gen (sep s cur : string) :
  sep <> "" -> JsString.includes s sep = true ->
  exists p0 p1 ps rest,
    JsString.split_go sep s O cur = p0 :: p1 :: ps
    /\ (cur ++ s = p0 ++ sep ++ rest)%string.
Proof.
  intros Hsep. revert cur; induction s as [|c s IH]; intros cur H.
  - now rewrite includes_nil_l in H.
  - rewrite includes_cons in H. rewrite split_go_cons.
    destruct (JsString.startsWith (String c s) sep) eqn:E.
    + destruct (JsString.split_go sep s (Nat.pred (String.length sep)) "")
        as [|p1 ps] eqn:G; [now apply split_go_nonempty in G|].
      apply startsWith_inv in E as [r E].
      exists cur, p1, ps, r. split; [reflexivity | now rewrite E].
    + destruct (IH (cur ++ String c "")%string H) as (p0 & p1 & ps & rest & G & A).
      exists p0, p1, ps, rest. split; [exact G|].
      now rewrite <- A, append_assoc.
Qed.

(** A path that begins with the key splits into the empty piece and the
    pieces of the rest. *)
Lemma split_key_app (key rest : string) :
  key <> "" ->
  JsString.split (key ++ rest) key = "" :: JsString.split rest key.
Proof.
  intros Hkey. destruct key as [|c key]; [congruence|].
  unfold JsString.split. simpl append. rewrite split_go_cons.
  change (String c (key ++ rest)) with (String c key ++ rest)%string.
  rewrite startsWith_app. cbn [String.length Nat.pred].
  now rewrite split_go_skip.
Qed.

(** ** Package names *)

Lemma packageName_app (module : GoModule) (key rest : string) :
  key <> "" ->
  packageName module key (key ++ rest) =
  if JsString.includes rest key
  then Throw (GoFileNameError (key ++ rest) key)
  else Ok (JsString.concat (name module) (dirNameOf rest)).
Proof.
  intros Hkey. unfold packageName. rewrite split_key_app by assumption.
  destruct (JsString.includes rest key) eqn:I.
  - destruct key as [|c key]; [congruence|]. unfold JsString.split.
    destruct (split_go_present_gen (String c key) rest "" Hkey I)
      as (p0 & p1 & ps & r & -> & _). reflexivity.
  - destruct key as [|c key]; [congruence|]. unfold JsString.split.
    rewrite split_go_absent_gen by assumption. reflexivity.
Qed.

(** X15. For a path that begins with the key of a module, the package name
    is computed exactly when the key does not occur again in the rest of the
    path; when it does, the classification throws the file-name error with
    that path and that key. *)
Theorem packageName_error_iff_key_repeats (module : GoModule) (key rest : string) :
  key <> "" ->
  (JsString.includes rest key = true ->
   packageName module key (key ++ rest) = Throw (GoFileNameError (key ++ rest) key))
  /\ (JsString.includes rest key = false ->
      packageName module key (key ++ rest)
      = Ok (JsString.concat (name module) (dirNameOf rest))).
Proof.
  intros Hkey. rewrite packageName_app by assumption.
  split; intros ->; reflexivity.
Qed.

Lemma packageName_error_iff_key_repeats_witness :
  packageName (newGoModule "example.com/b" "v2.1.0") "example.com/b@v2.1.0"
    "example.com/b@v2.1.0/x/example.com/b@v2.1.0/y.go"
  = Throw (GoFileNameError "example.com/b@v2.1.0/x/example.com/b@v2.1.0/y.go"
             "example.com/b@v2.1.0").
Proof.
  apply (packageName_error_iff_key_repeats (newGoModule "example.com/b" "v2.1.0")
           "example.com/b@v2.1.0" "/x/example.com/b@v2.1.0/y.go").
  - discriminate.
  - vm_compute. reflexivity.
Defined.

Lemma substring_prefix (pre s : string) :
  substring 0 (String.length pre) (pre ++ s) = pre.
Proof.
  induction pre as [|c pre IH]; simpl.
  - now destruct s.
  - now rewrite IH.
Qed.

Lemma get_after_prefix (pre s : string) (k : nat) :
  String.get (String.length pre + k) (pre ++ s) = String.get k s.
Proof. rewrite Nat.add_comm. symmetry. apply append_correct2. Qed.

Lemma no_slash_at (base : string) (k : nat) :
  JsString.includes base "/" = false -> Path.is_slash (String.get k base) = false.
Proof.
  intros H. destruct (String.get k base) as [c|] eqn:G; [|reflexivity].
  unfold Path.is_slash. destruct (Ascii.eqb_spec c SLASH) as [->|]; [|reflexivity].
  apply get_includes in G. unfold SLASH in G.
  change (String (ascii_of_nat 47) "") with "/" in G. congruence.
Qed.

Lemma length_app_string (a b : string) :
  String.length (a ++ b) = (String.length a + String.length b)%nat.
Proof. induction a as [|c a IH]; simpl; [reflexivity | now rewrite IH]. Qed.

(** The backward scan passes over a last component without slash. *)
Lemma parse_scan_base (pre base : string) (start : nat) :
  JsString.includes base "/" = false -> (start <= 1)%nat ->
  forall k matchedSlash, (k <= String.length base)%nat ->
    Path.parse_scan (pre ++ "/" ++ base) start (String.length pre + 1 + k) matchedSlash =
    Path.parse_scan (pre ++ "/" ++ base) start (String.length pre + 1)
      (if Nat.eqb k 0 then matchedSlash else false).
Proof.
  intros Hbase Hstart. induction k as [|k IH]; intros ms Hk.
  - now rewrite Nat.add_0_r.
  - replace (String.length pre + 1 + S k)%nat with (S (String.length pre + 1 + k)) by lia.
    cbn [Path.parse_scan Nat.eqb].
    destruct (Nat.ltb_spec (String.length pre + 1 + k) start); [lia|].
    replace (String.length pre + 1 + k)%nat with (String.length pre + S k)%nat at 1 by lia.
    rewrite get_after_prefix. cbn [append String.get].
    rewrite no_slash_at by assumption.
    rewrite IH by lia. now destruct (Nat.eqb k 0).
Qed.

(** The directory of a path that ends in a component without slash. *)
Lemma parse_dir_base (pre base : string) :
  base <> "" -> JsString.includes base "/" = false ->
  Path.parse_dir (pre ++ "/" ++ base) = if String.eqb pre "" then "/" else pre.
Proof.
  intros Hne Hbase. unfold Path.parse_dir.
  destruct (String.eqb_spec (pre ++ "/" ++ base) "") as [E|_].
  { destruct pre; discriminate E. }
  set (start := if Path.is_slash (String.get 0 (pre ++ "/" ++ base)) then 1%nat else 0%nat).
  assert (Hstart : (start <= 1)%nat) by (subst start; destruct (Path.is_slash _); lia).
  assert (K : (0 < String.length base)%nat) by (destruct base; [congruence | simpl; lia]).
  replace (String.length (pre ++ "/" ++ base))
    with (String.length pre + 1 + String.length base)%nat
    by (rewrite !length_app_string; simpl; lia).
  rewrite (parse_scan_base pre base start Hbase Hstart) by lia.
  destruct (Nat.eqb_spec (String.length base) 0); [lia|].
  replace (String.length pre + 1)%nat with (S (String.length pre)) by lia.
  cbn [Path.parse_scan].
  replace (String.get (String.length pre) (pre ++ "/" ++ base)) with (Some SLASH)
    by (rewrite <- (Nat.add_0_r (String.length pre)), get_after_prefix; reflexivity).
  destruct pre as [|x pre].
  - subst start. cbn. reflexivity.
  - destruct (Nat.ltb_spec (String.length (String x pre)) start);
      [simpl in *; lia|].
    cbn [Path.is_slash]. rewrite Ascii.eqb_refl.
    cbn [Nat.ltb Nat.leb String.eqb]. unfold JsString.slice.
    replace (S (String.length (String x pre)) - 1 - 0)%nat
      with (String.length (String x pre)) by lia.
    apply substring_prefix.
Qed.

Lemma dirNameOf_base (dir base : string) :
  base <> "" -> JsString.includes base "/" = false ->
  dirNameOf (dir ++ "/" ++ base) = if String.eqb dir "/" then "" else dir.
Proof.
  intros Hne Hbase. unfold dirNameOf. rewrite parse_dir_base by assumption.
  destruct (String.eqb_spec dir "") as [->|D]; [reflexivity|].
  reflexivity.
Qed.

(** X16. For a path made of the key of a module, a directory part and a
    file name without slash, where the key does not occur again after the
    start, the package name is the name of the module followed by the
    directory part: nothing is appended for a file at the root of the module
    (empty directory part) and for the directory part [/]; any other
    directory part is appended as it is. *)
Theorem packageName_of_file (module : GoModule) (key dir base : string) :
  key <> "" -> base <> "" ->
  JsString.includes base "/" = false ->
  JsString.includes (dir ++ "/" ++ base) key = false ->
  packageName module key (key ++ dir ++ "/" ++ base) =
    Ok (JsString.concat (name module) (if String.eqb dir "/" then "" else dir)).
Proof.
  intros Hkey Hne Hbase Hrep.
  rewrite packageName_app, Hrep by assumption.
  now rewrite dirNameOf_base.
Qed.

Lemma packageName_of_file_witness :
  packageName (newGoModule "github.com/my/pkg" "v0.0.1") "github.com/my/pkg@v0.0.1"
    "github.com/my/pkg@v0.0.1/a/a.go" = Ok "github.com/my/pkg/a"
  /\ packageName (newGoModule "github.com/my/pkg" "v0.0.1") "github.com/my/pkg@v0.0.1"
       "github.com/my/pkg@v0.0.1/a.go" = Ok "github.com/my/pkg".
Proof.
  split.
  - apply (packageName_of_file (newGoModule "github.com/my/pkg" "v0.0.1")
             "github.com/my/pkg@v0.0.1" "/a" "a.go");
      try discriminate; vm_compute; reflexivity.
  - apply (packageName_of_file (newGoModule "github.com/my/pkg" "v0.0.1")
             "github.com/my/pkg@v0.0.1" "" "a.go");
      try discriminate; vm_compute; reflexivity.
Defined.

(** ** Classification as a whole *)

Lemma grows_refl (m : GoModule) : grows m m.
Proof. repeat split. exists []. now rewrite app_nil_r. Qed.

Lemma grows_trans (a b c : GoModule) : grows a b -> grows b c -> grows a c.
Proof.
  intros (N1 & V1 & x & P1) (N2 & V2 & y & P2).
  repeat split; try congruence. exists (x ++ y). now rewrite P2, P1, app_assoc.
Qed.

Lemma addPackage_grows (m : GoModule) (pkgName : string) : grows m (addPackage m pkgName).
Proof.
  unfold addPackage. destruct (packages_include _ _); [apply grows_refl|].
  repeat split. now exists [pkgName].
Qed.

Lemma matchFile_grows (key : GoModule -> string) (pkgFile : string)
  (ms ms' : list GoModule) :
  matchFile key pkgFile ms = Ok ms' -> Forall2 grows ms ms'.
Proof.
  revert ms'; induction ms as [|m ms IH]; intros ms' H; simpl in H.
  - injection H as <-. constructor.
  - destruct (JsString.startsWith pkgFile (key m)).
    + destruct (packageName m (key m) pkgFile) as [pkgName|e]; [|discriminate].
      cbn [bind] in H.
      destruct (matchFile key pkgFile ms) as [rest|e]; [|discriminate].
      injection H as <-. constructor; [apply addPackage_grows | now apply IH].
    + destruct (matchFile key pkgFile ms) as [rest|e]; [|discriminate].
      injection H as <-. constructor; [apply grows_refl | now apply IH].
Qed.

Lemma Forall2_grows_refl (ms : list GoModule) : Forall2 grows ms ms.
Proof. induction ms; constructor; [apply grows_refl | assumption]. Qed.

Lemma Forall2_grows_trans (a b c : list GoModule) :
  Forall2 grows a b -> Forall2 grows b c -> Forall2 grows a c.
Proof.
  intros H; revert c; induction H; intros c Hc; inversion Hc; subst; constructor.
  - eapply grows_trans; eassumption.
  - auto.
Qed.

Lemma matchFiles_grows (paths : Paths) (files : list string) (ms ms' : list GoModule) :
  matchFiles paths files ms = Ok ms' -> Forall2 grows ms ms'.
Proof.
  revert ms; induction files as [|f fs IH]; intros ms H; simpl in H.
  - injection H as <-. apply Forall2_grows_refl.
  - destruct (classify paths f) as [[key pkgFile]|]; [|now apply IH].
    destruct (matchFile key pkgFile ms) as [mid|e] eqn:M; [|discriminate].
    cbn [bind] in H. eapply Forall2_grows_trans.
    + eapply matchFile_grows; eassumption.
    + now apply IH.
Qed.

(** X17. A classification that succeeds answers the same modules in the
    same order, with their names and versions, and each module keeps the
    packages it had, in their order, before the ones that were added. *)
Theorem matchFilesToModules_grows (modules modules' : list GoModule) (files : list string) :
  matchFilesToModules modules files = Ok modules' ->
  Forall2 grows modules modules'
  /\ List.length modules' = List.length modules
  /\ map name modules' = map name modules
  /\ map version modules' = map version modules.
Proof.
  intros H. apply matchFiles_grows in H.
  split; [exact H|].
  induction H as [|m m' ms ms' (N & V & _) _ (L & Ns & Vs)]; [auto|].
  cbn [List.length map]. repeat split; congruence.
Qed.

Lemma matchFilesToModules_grows_witness :
  map name [mkGoModule "example.com/a" "v1.0.0" ["example.com/a"];
            mkGoModule "example.com/b" "v2.1.0" ["example.com/b/x"]]
  = map name plainModules.
Proof.
  apply (matchFilesToModules_grows plainModules _ plainFiles).
  vm_compute. reflexivity.
Defined.

Lemma name_stable : stable_key name.
Proof. intros m m' N _. exact N. Qed.

Lemma fullName_stable : stable_key fullName.
Proof. intros m m' N V. unfold fullName. now rewrite N, V. Qed.

Lemma classify_stable (paths : Paths) (fileName pkgFile : string)
  (key : GoModule -> string) :
  classify paths fileName = Some (key, pkgFile) -> stable_key key.
Proof.
  unfold classify.
  destruct (String.eqb fileName "<autogenerated>"); [discriminate|].
  destruct (_ && _); [intros H; injection H as <- _; apply name_stable|].
  destruct (_ && _); [intros H; injection H as <- _; apply fullName_stable|].
  destruct (_ && _); [intros H; injection H as <- _; apply fullName_stable|].
  discriminate.
Qed.

Lemma packageName_name (m m' : GoModule) (key pkgFile : string) :
  name m = name m' -> packageName m key pkgFile = packageName m' key pkgFile.
Proof. intros N. unfold packageName. now rewrite N. Qed.

Lemma absorbs_grows (key : GoModule -> string) (pkgFile : string) (m m' : GoModule) :
  stable_key key -> absorbs key pkgFile m -> grows m m' -> absorbs key pkgFile m'.
Proof.
  intros K A (N & V & added & P) S.
  rewrite (K m' m N V) in S |- *.
  destruct (A S) as (pkgName & Hp & Hin).
  exists pkgName. split.
  - now rewrite (packageName_name m' m) by exact N.
  - rewrite P. apply in_or_app. now left.
Qed.

Lemma addPackage_In (m : GoModule) (pkgName : string) :
  In pkgName (packages (addPackage m pkgName)).
Proof.
  unfold addPackage. destruct (packages_include _ _) eqn:E.
  - now apply packages_include_In.
  - cbn [packages]. apply in_or_app. right. now left.
Qed.

Lemma matchFile_absorbs (key : GoModule -> string) (pkgFile : string)
  (ms ms' : list GoModule) :
  stable_key key ->
  matchFile key pkgFile ms = Ok ms' -> Forall (absorbs key pkgFile) ms'.
Proof.
  intros K. revert ms'; induction ms as [|m ms IH]; intros ms' H; simpl in H.
  - injection H as <-. constructor.
  - destruct (JsString.startsWith pkgFile (key m)) eqn:S.
    + destruct (packageName m (key m) pkgFile) as [pkgName|e] eqn:P; [|discriminate].
      cbn [bind] in H.
      destruct (matchFile key pkgFile ms) as [rest|e]; [|discriminate].
      injection H as <-. constructor; [|now apply IH].
      pose proof (addPackage_grows m pkgName) as (N & V & _).
      intros _. exists pkgName. rewrite (K _ m N V). split.
      * now rewrite (packageName_name _ m) by exact N.
      * apply addPackage_In.
    + destruct (matchFile key pkgFile ms) as [rest|e]; [|discriminate].
      injection H as <-. constructor; [|now apply IH].
      intros S'. congruence.
Qed.

Lemma matchFile_fixed (key : GoModule -> string) (pkgFile : string) (ms : list GoModule) :
  Forall (absorbs key pkgFile) ms -> matchFile key pkgFile ms = Ok ms.
Proof.
  induction 1 as [|m ms A _ IH]; [reflexivity|]. simpl.
  destruct (JsString.startsWith pkgFile (key m)) eqn:S.
  - destruct (A S) as (pkgName & -> & Hin). cbn [bind]. rewrite IH. cbn [bind].
    unfold addPackage. apply packages_include_In in Hin. now rewrite Hin.
  - now rewrite IH.
Qed.

Lemma Forall_absorbs_grows (key : GoModule -> string) (pkgFile : string)
  (ms ms' : list GoModule) :
  stable_key key -> Forall2 grows ms ms' ->
  Forall (absorbs key pkgFile) ms -> Forall (absorbs key pkgFile) ms'.
Proof.
  intros K G. induction G as [|m m' ms ms' Hm _ IH]; intros A; [constructor|].
  inversion A; subst. constructor; [|auto].
  eapply absorbs_grows; eassumption.
Qed.

Lemma matchFiles_absorbed (paths : Paths) (files : list string) :
  forall ms ms',
    matchFiles paths files ms = Ok ms' ->
    forall f key pkgFile,
      In f files -> classify paths f = Some (key, pkgFile) ->
      Forall (absorbs key pkgFile) ms'.
Proof.
  induction files as [|g gs IH]; intros ms ms' H f key pkgFile Hin C; [destruct Hin|].
  simpl in H.
  destruct (classify paths g) as [[key' pkgFile']|] eqn:Cg.
  - destruct (matchFile key' pkgFile' ms) as [mid|e] eqn:M; [|discriminate].
    cbn [bind] in H. destruct Hin as [<-|Hin]; [|eapply IH; eassumption].
    rewrite C in Cg. injection Cg as <- <-.
    pose proof (classify_stable _ _ _ _ C) as K.
    eapply Forall_absorbs_grows; [exact K | eapply matchFiles_grows; exact H |].
    eapply matchFile_absorbs; eassumption.
  - destruct Hin as [<-|Hin]; [congruence | eapply IH; eassumption].
Qed.

Lemma matchFiles_fixed (paths : Paths) (files : list string) (ms : list GoModule) :
  (forall f key pkgFile,
     In f files -> classify paths f = Some (key, pkgFile) ->
     Forall (absorbs key pkgFile) ms) ->
  matchFiles paths files ms = Ok ms.
Proof.
  induction files as [|g gs IH]; intros A; [reflexivity|]. simpl.
  destruct (classify paths g) as [[key pkgFile]|] eqn:C.
  - rewrite (matchFile_fixed key pkgFile ms) by (apply (A g); [now left | exact C]).
    cbn [bind]. apply IH. intros f k p Hin. apply A. now right.
  - apply IH. intros f k p Hin. apply A. now right.
Qed.

Lemma determineGoModCachePath_grows (ms ms' : list GoModule) (files : list string) :
  Forall2 grows ms ms' ->
  determineGoModCachePath ms' files = determineGoModCachePath ms files.
Proof.
  induction 1 as [|m m' ms ms' (N & V & _) _ IH]; [reflexivity|]. simpl.
  rewrite (fullName_stable m' m N V), IH. reflexivity.
Qed.

Lemma determineVendorPath_grows (ms ms' : list GoModule) (files : list string) :
  Forall2 grows ms ms' ->
  determineVendorPath ms' files = determineVendorPath ms files.
Proof.
  induction 1 as [|m m' ms ms' (N & V & _) _ IH]; [reflexivity|]. simpl.
  rewrite N, IH. reflexivity.
Qed.

(** X18. Classifying the same files again changes nothing: when
    [matchFilesToModules] succeeds, running it on the modules it answers and
    the same file list succeeds and answers these modules unchanged. *)
Theorem matchFilesToModules_idempotent (modules modules' : list GoModule)
  (files : list string) :
  matchFilesToModules modules files = Ok modules' ->
  matchFilesToModules modules' files = Ok modules'.
Proof.
  unfold matchFilesToModules. intros H.
  pose proof (matchFiles_grows _ _ _ _ H) as G.
  assert (P : determinePaths modules' files = determinePaths modules files).
  { unfold determinePaths.
    now rewrite (determineGoModCachePath_grows _ _ _ G), (determineVendorPath_grows _ _ _ G). }
  rewrite P. apply matchFiles_fixed.
  intros f key pkgFile Hin C. eapply matchFiles_absorbed; eassumption.
Qed.

Lemma matchFilesToModules_idempotent_witness :
  matchFilesToModules
    [mkGoModule "example.com/a" "v1.0.0" ["example.com/a/sub"];
     mkGoModule "example.com/a/sub" "v0.2.0" ["example.com/a/sub"]] nestedFiles
  = Ok [mkGoModule "example.com/a" "v1.0.0" ["example.com/a/sub"];
        mkGoModule "example.com/a/sub" "v0.2.0" ["example.com/a/sub"]].
Proof.
  apply (matchFilesToModules_idempotent nestedModules). vm_compute. reflexivity.
Defined.

(** ** The prefixes *)

Lemma fullName_nonempty (m : GoModule) : fullName m <> "".
Proof. unfold fullName, JsString.concat. destruct (name m); discriminate. Qed.

Lemma split_head_before (f sep : string) :
  sep <> "" -> JsString.includes f sep = true ->
  exists rest, f = (split_head f sep ++ sep ++ rest)%string.
Proof.
  intros Hsep H. unfold split_head, JsString.split.
  destruct sep as [|c sep]; [congruence|].
  destruct (split_go_present_gen (String c sep) f "" Hsep H)
    as (p0 & p1 & ps & rest & -> & E).
  exists rest. exact E.
Qed.

Lemma includes_after_slash (f key : string) :
  JsString.includes f (JsString.concat "/" key) = true ->
  JsString.includes f key = true.
Proof.
  intros H. apply includes_spec in H as (a & b & ->).
  apply includes_spec. exists (a ++ "/")%string, b.
  unfold JsString.concat. rewrite !append_assoc. reflexivity.
Qed.

Lemma determineGoModCachePath_found (modules : list GoModule) (files : list string) :
  determineGoModCachePath modules files <> "" ->
  exists m f rest,
    In m modules /\ In f files
    /\ JsString.includes f (JsString.concat "/" (fullName m)) = true
    /\ f = (determineGoModCachePath modules files ++ fullName m ++ rest)%string.
Proof.
  induction modules as [|m ms IH]; simpl; [congruence|].
  destruct (find _ files) as [f|] eqn:F.
  - destruct (JsString.truthy (Some f)).
    + intros _. apply find_some in F as [Hin Hinc].
      destruct (split_head_before f (fullName m) (fullName_nonempty m)
                  (includes_after_slash _ _ Hinc)) as [rest E].
      exists m, f, rest. repeat split; auto.
    + intros H. destruct (IH H) as (m' & f' & rest & Hm & Hf & Hi & E).
      exists m', f', rest. repeat split; auto.
  - intros H. destruct (IH H) as (m' & f' & rest & Hm & Hf & Hi & E).
    exists m', f', rest. repeat split; auto.
Qed.

(** X19. The module-cache prefix, when it is not empty, is what stands
    before the full name [name@version] of a module in one of the files, a
    file in which [/name@version] occurs; when [/name@version] occurs in no
    file for any module, the prefix is empty. *)
Theorem determineGoModCachePath_spec (modules : list GoModule) (files : list string) :
  (determineGoModCachePath modules files <> "" ->
   exists m f rest,
     In m modules /\ In f files
     /\ JsString.includes f (JsString.concat "/" (fullName m)) = true
     /\ f = (determineGoModCachePath modules files ++ fullName m ++ rest)%string)
  /\ ((forall m f, In m modules -> In f files ->
         JsString.includes f (JsString.concat "/" (fullName m)) = false) ->
      determineGoModCachePath modules files = "").
Proof.
  split; [apply determineGoModCachePath_found|].
  induction modules as [|m ms IH]; intros H; [reflexivity|].
  cbn [determineGoModCachePath].
  destruct (find _ files) as [f|] eqn:F.
  - apply find_some in F as [Hin Hinc]. cbv beta in Hinc.
    rewrite (H m f) in Hinc; [discriminate | now left | exact Hin].
  - apply IH. intros m' f Hm Hf. apply H; auto. now right.
Qed.

Lemma determineGoModCachePath_spec_witness :
  exists m f rest,
    In m plainModules /\ In f cacheFiles
    /\ JsString.includes f (JsString.concat "/" (fullName m)) = true
    /\ f = (determineGoModCachePath plainModules cacheFiles ++ fullName m ++ rest)%string.
Proof.
  apply (determineGoModCachePath_spec plainModules cacheFiles).
  vm_compute. discriminate.
Defined.

Example cache_prefix : determineGoModCachePath plainModules cacheFiles = "/root/pkg/mod/".
Proof. vm_compute. reflexivity. Qed.

(** X20. A file list is taken as trimmed exactly when no file begins with
    a slash.  Then both prefixes are empty, whatever the modules, and every
    file except [<autogenerated>] is matched by its whole name against the
    full names [name@version] of the modules. *)
Theorem trimmed_classification (modules : list GoModule) (files : list string) :
  (isTrimmed files = true <->
   forall f, In f files -> JsString.startsWith f "/" = false)
  /\ (isTrimmed files = true ->
      determinePaths modules files = mkPaths "" ""
      /\ forall f, f <> "<autogenerated>" ->
           classify (determinePaths modules files) f = Some (fullName, f)).
Proof.
  split.
  - unfold isTrimmed. rewrite forallb_forall. split; intros H f Hf.
    + apply negb_true_iff. now apply H.
    + apply negb_true_iff. now apply H.
  - intros T. unfold determinePaths. rewrite T. split; [reflexivity|].
    intros f Hf. unfold classify.
    destruct (String.eqb_spec f "<autogenerated>"); [contradiction | reflexivity].
Qed.

Lemma trimmed_classification_witness :
  determinePaths doubleSlashModules doubleSlashFiles = mkPaths "" "".
Proof.
  destruct (trimmed_classification doubleSlashModules doubleSlashFiles) as [_ H].
  apply H. reflexivity.
Defined.

Lemma drop_length_app (p r : string) : JsString.drop (String.length p) (p ++ r) = r.
Proof. induction p as [|c p IH]; simpl; [now destruct r | exact IH]. Qed.

Lemma trimPrefix_app (p r : string) : trimPrefix (p ++ r) p = r.
Proof. unfold trimPrefix. now rewrite startsWith_app, drop_length_app. Qed.

(** X21. With a vendor prefix, a file under it is matched by what follows
    the prefix against the names of the modules, also when the module-cache
    prefix begins the file as well; a file under the module-cache prefix only
    is matched by what follows it against the full names; and as soon as one
    of the two prefixes is set, a file under neither is skipped. *)
Theorem classify_by_prefix (paths : Paths) (fileName : string) :
  fileName <> "<autogenerated>" ->
  (forall rest,
     vendorPath paths <> "" -> fileName = (vendorPath paths ++ rest)%string ->
     exists key, classify paths fileName = Some (key, rest)
                 /\ forall m, key m = name m)
  /\ (forall rest,
        modCachePath paths <> "" -> fileName = (modCachePath paths ++ rest)%string ->
        vendorPath paths = "" \/ JsString.startsWith fileName (vendorPath paths) = false ->
        exists key, classify paths fileName = Some (key, rest)
                    /\ forall m, key m = fullName m)
  /\ (vendorPath paths <> "" \/ modCachePath paths <> "" ->
      vendorPath paths = "" \/ JsString.startsWith fileName (vendorPath paths) = false ->
      modCachePath paths = "" \/ JsString.startsWith fileName (modCachePath paths) = false ->
      classify paths fileName = None).
Proof.
  intros Hauto. unfold classify.
  destruct (String.eqb_spec fileName "<autogenerated>") as [|_]; [contradiction|].
  split; [|split].
  - intros rest Hv ->. exists name.
    destruct (String.eqb_spec (vendorPath paths) ""); [contradiction|].
    cbn [negb andb]. now rewrite startsWith_app, trimPrefix_app.
  - intros rest Hm -> Hv. exists fullName.
    assert (V : negb (String.eqb (vendorPath paths) "")
                && JsString.startsWith (modCachePath paths ++ rest) (vendorPath paths)
                = false).
    { destruct Hv as [-> | ->]; [reflexivity | apply andb_false_r]. }
    rewrite V.
    destruct (String.eqb_spec (modCachePath paths) ""); [contradiction|].
    cbn [negb andb]. now rewrite startsWith_app, trimPrefix_app.
  - intros Hset Hv Hm.
    assert (V : negb (String.eqb (vendorPath paths) "")
                && JsString.startsWith fileName (vendorPath paths) = false).
    { destruct Hv as [-> | ->]; [reflexivity | apply andb_false_r]. }
    assert (M : negb (String.eqb (modCachePath paths) "")
                && JsString.startsWith fileName (modCachePath paths) = false).
    { destruct Hm as [-> | ->]; [reflexivity | apply andb_false_r]. }
    rewrite V, M.
    destruct (String.eqb_spec (vendorPath paths) "") as [Ev|Ev];
      destruct (String.eqb_spec (modCachePath paths) "") as [Em|Em];
      try reflexivity.
    destruct Hset; contradiction.
Qed.

Lemma classify_by_prefix_witness :
  exists key,
    classify (mkPaths "/root/pkg/mod/" "/app/vendor/") "/app/vendor/example.com/b/x/y.go"
    = Some (key, "example.com/b/x/y.go")
    /\ forall m, key m = name m.
Proof.
  destruct (classify_by_prefix (mkPaths "/root/pkg/mod/" "/app/vendor/")
              "/app/vendor/example.com/b/x/y.go") as [H _].
  - discriminate.
  - apply (H "example.com/b/x/y.go"); [discriminate | reflexivity].
Defined.

Lemma vendoredModulePath_nonempty (m : GoModule) : vendoredModulePath m <> "".
Proof.
  unfold vendoredModulePath, JsString.concat.
  destruct (Path.join "vendor" (name m)); discriminate.
Qed.

(** X22. The vendor prefix, when it is not empty, comes from a file in
    which [vendor/<name>/] of a module occurs: with [root] what stands before
    the first occurrence, another entry of the file list holds [root] and
    not [vendor/<name>/], and the prefix is [path.join(root, "vendor")]
    followed by a slash. *)
Theorem determineVendorPath_spec (modules : list GoModule) (files : list string) :
  determineVendorPath modules files <> "" ->
  exists m f root rest other,
    In m modules /\ In f files /\ In other files
    /\ f = (root ++ vendoredModulePath m ++ rest)%string
    /\ JsString.includes other root = true
    /\ JsString.includes other (vendoredModulePath m) = false
    /\ determineVendorPath modules files = JsString.concat (Path.join root "vendor") "/".
Proof.
  induction modules as [|m ms IH]; cbn [determineVendorPath]; [congruence|].
  fold (vendoredModulePath m).
  assert (Next : determineVendorPath ms files <> "" ->
            exists m0 f root rest other,
              In m0 (m :: ms) /\ In f files /\ In other files
              /\ f = (root ++ vendoredModulePath m0 ++ rest)%string
              /\ JsString.includes other root = true
              /\ JsString.includes other (vendoredModulePath m0) = false
              /\ determineVendorPath ms files = JsString.concat (Path.join root "vendor") "/").
  { intros H. destruct (IH H) as (m0 & f & root & rest & other & Hm & R).
    exists m0, f, root, rest, other. split; [now right | exact R]. }
  destruct (find _ files) as [f|] eqn:F; [|exact Next].
  destruct (JsString.truthy (Some f)); [|exact Next].
  destruct (find (fun file => _ && _) files) as [other|] eqn:S;
    [|cbn [JsString.truthy]; exact Next].
  destruct (JsString.truthy (Some other)); [|exact Next].
  intros _. apply find_some in F as [Hf Hinc]. cbv beta in Hinc.
  apply find_some in S as [Ho Hcond]. cbv beta in Hcond.
  apply andb_true_iff in Hcond as [Hroot Hnot]. apply negb_true_iff in Hnot.
  destruct (split_head_before f (vendoredModulePath m)
              (vendoredModulePath_nonempty m) Hinc) as [rest E].
  exists m, f, (split_head f (vendoredModulePath m)), rest, other.
  repeat split; auto. now left.
Qed.

Lemma determineVendorPath_spec_witness :
  exists m f root rest other,
    In m nestedModules /\ In f nestedFiles /\ In other nestedFiles
    /\ f = (root ++ vendoredModulePath m ++ rest)%string
    /\ JsString.includes other root = true
    /\ JsString.includes other (vendoredModulePath m) = false
    /\ determineVendorPath nestedModules nestedFiles
       = JsString.concat (Path.join root "vendor") "/".
Proof.
  apply (determineVendorPath_spec nestedModules nestedFiles).
  vm_compute. discriminate.
Defined.

(** ** The constructor, on success *)

(** X23. When the constructor answers a [GoBinary], the image has a
    section named [.gopclntab], the line-table decoder answered a file list
    for the bytes of the first such section, the name is the one
    [extractModuleInformation] answered, and the modules are the ones it
    answered, in their order and with their versions, after the
    classification of that file list.  An error of the line-table decoder is
    the error of the constructor. *)
Theorem newGoBinary_success
  (go12MapFiles : Buffer -> result (list string)) (fuel : nat) (goElfBinary : Elf) :
  (forall binary,
     newGoBinary go12MapFiles fuel goElfBinary = Some (Ok binary) ->
     exists extracted pclnTab files,
       extractModuleInformation fuel goElfBinary
         = Some (Ok (binary_name binary, extracted))
       /\ find is_pclntab_section (sections goElfBinary) = Some pclnTab
       /\ go12MapFiles (section_data pclnTab) = Ok files
       /\ matchFilesToModules extracted files = Ok (modules binary)
       /\ map name (modules binary) = map name extracted
       /\ map version (modules binary) = map version extracted)
  /\ (forall info pclnTab e,
        extractModuleInformation fuel goElfBinary = Some (Ok info) ->
        find is_pclntab_section (sections goElfBinary) = Some pclnTab ->
        go12MapFiles (section_data pclnTab) = Throw e ->
        newGoBinary go12MapFiles fuel goElfBinary = Some (Throw e)).
Proof.
  unfold newGoBinary. fold is_pclntab_section. split.
  - intros binary.
    destruct (extractModuleInformation fuel goElfBinary) as [[[n ms]|e]|];
      try discriminate.
    destruct (find is_pclntab_section (sections goElfBinary)) as [pclnTab|];
      [|discriminate].
    destruct (go12MapFiles (section_data pclnTab)) as [files|e] eqn:G;
      [|discriminate]. cbn [bind].
    destruct (matchFilesToModules ms files) as [ms'|e] eqn:M; [|discriminate].
    cbn [bind]. intros H. injection H as <-. cbn [binary_name modules].
    exists ms, pclnTab, files. repeat split; auto.
    + apply matchFiles_grows in M.
      induction M as [|x y l l' (N & _) _ IH]; [reflexivity|].
      cbn [map]. now rewrite N, IH.
    + apply matchFiles_grows in M.
      induction M as [|x y l l' (_ & V & _) _ IH]; [reflexivity|].
      cbn [map]. now rewrite V, IH.
  - intros [n ms] pclnTab e -> -> ->. reflexivity.
Qed.

Example newGoBinary_complete :
  newGoBinary fixedFiles 1 completeElf = Some (Ok completeBinary).
Proof. vm_compute. reflexivity. Qed.

Lemma newGoBinary_success_witness :
  exists extracted pclnTab files,
    extractModuleInformation 1 completeElf
      = Some (Ok (binary_name completeBinary, extracted))
    /\ find is_pclntab_section (sections completeElf) = Some pclnTab
    /\ fixedFiles (section_data pclnTab) = Ok files
    /\ matchFilesToModules extracted files = Ok (modules completeBinary)
    /\ map name (modules completeBinary) = map name extracted
    /\ map version (modules completeBinary) = map version extracted.
Proof.
  destruct (newGoBinary_success fixedFiles 1 completeElf) as [H _].
  apply H. vm_compute. reflexivity.
Defined.
